(** * trader/controller.py: clocks, controller and tick loop

    A shallow embedding of [src/trader/controller.py].

    - The semantics is that of CPython 3 (3.7 or later).
    - [datetime] and [timedelta] values are integers counting microseconds,
      with the range checks Python performs written out. Datetimes are
      naive. The [interval] given to a simulated clock is a number, an [int]
      or a [float]; a [float] is an IEEE 754 binary64 value, and
      [timedelta] rounds it to whole microseconds.
    - A generator is a cursor with an explicit [next] function. Of the
      clocks, [SimulatedClock] and [DummyClock] are embedded; the controller
      works with any [Clock], which is what [IntervalClock] is as well.
    - Calls into code that lives outside the controller (strategy hooks,
      operations, the clock) act on an abstract [World], of which the broker
      is a part; they return or raise, and may coincide with a [stop()]
      issued by the other thread.
    - What [strategy.tick] returns is [None] or a sequence of operations.
    - The tick loop threads a [State] through an error monad and takes fuel,
      because a clock may be infinite. The state carries a log of the calls
      made, in program order. *)

From Stdlib Require Import ZArith List Bool Lia.
From Stdlib Require Import Floats.SpecFloat.
Import ListNotations.

Open Scope Z_scope.

(** ** Python values used by the module *)

(** Exceptions that can travel through the controller. *)
Inductive exn : Type :=
| StopIteration
| OverflowError
| ValueError
| RuntimeError
| UserError (code : nat).

Inductive Outcome (A : Type) : Type :=
| Return (a : A)
| Raise (e : exn).
Arguments Return {A} a.
Arguments Raise {A} e.

Module Datetime.

(** A naive [datetime]: microseconds elapsed since [datetime.min]
    (0001-01-01T00:00:00). *)
Definition datetime := Z.

(** A [timedelta]: a signed number of microseconds. *)
Definition timedelta := Z.

Definition US_PER_SECOND : Z := 1000000.
Definition SECONDS_PER_DAY : Z := 86400.

(** [datetime.max] is 9999-12-31T23:59:59.999999, the last microsecond of
    day 3652059. *)
Definition MAX : datetime := 3652059 * SECONDS_PER_DAY * US_PER_SECOND - 1.

Definition MAX_DELTA_DAYS : Z := 999999999.

Definition is_datetime (d : Z) : Prop := 0 <= d <= MAX.

(** [timedelta(seconds=n)] for an integer [n]: the value is normalised to
    days, seconds and microseconds, and the day count must fit. *)
Definition seconds (n : Z) : Outcome timedelta :=
  let days := n / SECONDS_PER_DAY in
  if (- MAX_DELTA_DAYS <=? days) && (days <=? MAX_DELTA_DAYS)
  then Return (n * US_PER_SECOND)
  else Raise OverflowError.

(** [d + td]: the result has to be a date between year 1 and year 9999. *)
Definition add (d : datetime) (td : timedelta) : Outcome datetime :=
  let r := d + td in
  if (0 <=? r) && (r <=? MAX) then Return r else Raise OverflowError.

(** A Python [float]: an IEEE 754 binary64 number. A finite one is
    [S754_finite s m e], of value [m * 2^e], negated when [s] is set. *)
Definition float : Type := spec_float.

Definition prec : Z := 53.
Definition emax : Z := 1024.

(** The float [1e6]. *)
Definition million : float := S754_finite false 8589934592000000 (-33).

(** The two parts [math.modf] splits a finite float into: the whole part,
    rounded toward zero and taken as an [int], and the fraction, which has
    the sign of the float. Both are exact. *)
Definition whole (x : float) : Z :=
  match x with
  | S754_finite s m e =>
      let v := if 0 <=? e then Z.pos m * 2 ^ e else Z.pos m / 2 ^ (- e) in
      if s then - v else v
  | _ => 0
  end.

Definition fraction (x : float) : float :=
  match x with
  | S754_finite s m e =>
      if 0 <=? e then S754_zero s
      else
        match Z.pos m mod 2 ^ (- e) with
        | Z.pos r => S754_finite s r e
        | _ => S754_zero s
        end
  | _ => x
  end.

(** [round(x)] for a finite float: the nearest [int], a half going to the
    even neighbour. *)
Definition round_half_even (x : float) : Z :=
  match x with
  | S754_finite s m e =>
      let v :=
        if 0 <=? e then Z.pos m * 2 ^ e
        else
          let q := Z.pos m / 2 ^ (- e) in
          let r := Z.pos m mod 2 ^ (- e) in
          match 2 * r ?= 2 ^ (- e) with
          | Lt => q
          | Gt => q + 1
          | Eq => if Z.even q then q else q + 1
          end in
      if s then - v else v
  | _ => 0
  end.

(** A [timedelta] of [us] microseconds, normalised: the day count must
    fit. *)
Definition microseconds (us : Z) : Outcome timedelta :=
  let days := us / (SECONDS_PER_DAY * US_PER_SECOND) in
  if (- MAX_DELTA_DAYS <=? days) && (days <=? MAX_DELTA_DAYS)
  then Return us
  else Raise OverflowError.

(** [timedelta(seconds=x)] for a float [x]: the whole seconds are counted
    exactly; the fraction is multiplied by [1e6] in floating point and the
    product rounded to a whole number of microseconds. Neither [nan] nor an
    infinity can be converted to an [int]. *)
Definition float_seconds (x : float) : Outcome timedelta :=
  match x with
  | S754_nan => Raise ValueError
  | S754_infinity _ => Raise OverflowError
  | _ =>
      microseconds
        (whole x * US_PER_SECOND
         + round_half_even (SFmul prec emax (fraction x) million))
  end.

(** The numbers [timedelta] takes for [seconds]. *)
Inductive number : Type :=
| Int (n : Z)
| Float (x : float).

(** [timedelta(seconds=x)] *)
Definition of_seconds (x : number) : Outcome timedelta :=
  match x with
  | Int n => seconds n
  | Float x => float_seconds x
  end.

(** [x > 0] *)
Definition is_positive (x : number) : bool :=
  match x with
  | Int n => 0 <? n
  | Float x => SFltb (S754_zero false) x
  end.

End Datetime.

(** An [int] is a number. *)
Coercion Datetime.Int : Z >-> Datetime.number.

(** ** The interface to code outside the controller *)

(** What a call into external code (a strategy hook, an operation, a clock)
  hands back: it returns or raises, it leaves the world in some state, and
  [stop_called] tells whether [stop()] set the stop flag while the call was
  under way. [stop()] is the only writer of that flag after construction. *)
Record Reply (World A : Type) : Type := mkReply {
  outcome : Outcome A;
  world_after : World;
  stop_called : bool
}.
Arguments mkReply {World A} outcome world_after stop_called.
Arguments outcome {World A} r.
Arguments world_after {World A} r.
Arguments stop_called {World A} r.

(** An Operation is a callable applied to the broker, which is part of the
  world. *)
Definition Operation (World : Type) : Type := World -> Reply World unit.

(** What [strategy.tick] returns: [None] or a sequence of operations. *)
Definition TickResult (World : Type) : Type := option (list (Operation World)).

Record Strategy (World Tick : Type) : Type := mkStrategy {
  start : Tick -> World -> Reply World unit;
  tick : Tick -> World -> Reply World (TickResult World)
}.
Arguments mkStrategy {World Tick} start tick.
Arguments start {World Tick} s tk w.
Arguments tick {World Tick} s tk w.

(** A clock is anything that can be iterated: [__iter__] makes a fresh
  iterator, [__next__] advances it and raises [StopIteration] at its end. *)
Record Clock (World Tick : Type) : Type := mkClock {
  cursor : Type;
  __iter__ : cursor;
  __next__ : cursor -> World -> Reply World (Tick * cursor)
}.
Arguments mkClock {World Tick} cursor __iter__ __next__.
Arguments cursor {World Tick} c.
Arguments __iter__ {World Tick} c.
Arguments __next__ {World Tick} c g w.

(** ** SimulatedClock *)

Module SimulatedClock.
Import Datetime.

Record t : Type := make {
  start : datetime;
  stop : datetime;
  interval : timedelta
}.

(** [__init__]: stores the three fields; the only thing that can fail is
    the conversion of [interval] to a [timedelta]. *)
Definition __init__ (start stop : datetime) (interval : number) : Outcome t :=
  match of_seconds interval with
  | Return td => Return (make start stop td)
  | Raise e => Raise e
  end.

(** The generator object made by [__iter__]: it has not run yet, or it is
    suspended at the [yield] with the local [current], or it has
    finished. *)
Inductive generator : Type :=
| Created
| Suspended (current : datetime)
| Finished.

Definition __iter__ (self : t) : generator := Created.

(** The test of the [while] loop followed by the [yield]. *)
Definition loop_head (self : t) (current : datetime)
  : Outcome (datetime * generator) :=
  if current <? stop self
  then Return (current, Suspended current)
  else Raise StopIteration.

Definition next (self : t) (g : generator) : Outcome (datetime * generator) :=
  match g with
  | Created => loop_head self (start self)
  | Suspended current =>
      match add current (interval self) with
      | Return current' => loop_head self current'
      | Raise e => Raise e
      end
  | Finished => Raise StopIteration
  end.

(** How a traversal of at most [fuel] pulls ended. *)
Inductive Ending : Type :=
| Ended
| Errored (e : exn)
| Unfinished.

(** The ticks one traversal produces, pulling at most [fuel] times. A
    generator that raised is finished, so nothing follows an error. *)
Fixpoint pulls (self : t) (fuel : nat) (g : generator)
  : list datetime * Ending :=
  match fuel with
  | O => ([], Unfinished)
  | S fuel' =>
      match next self g with
      | Return (tk, g') =>
          let (ts, e) := pulls self fuel' g' in (tk :: ts, e)
      | Raise StopIteration => ([], Ended)
      | Raise e => ([], Errored e)
      end
  end.

Definition produced (self : t) (fuel : nat) : list datetime * Ending :=
  pulls self fuel (__iter__ self).

(** How a traversal ends once its last tick [last] has been yielded: the
    addition that would leave the range of [datetime] raises, otherwise the
    loop test fails. *)
Definition ending_after (last : datetime) (self : t) : Ending :=
  if last + interval self <=? MAX then Ended else Errored OverflowError.

(** The clock as seen by a controller: pulling from it neither touches
    the world nor has anything to do with [stop()]. *)
Definition clock {World : Type} (self : t) : Clock World datetime :=
  mkClock generator (__iter__ self)
          (fun g w => mkReply (next self g) w false).

End SimulatedClock.

(** ** DummyClock: yields [None] for ever *)

Module DummyClock.

Definition clock {World : Type} : Clock World unit :=
  mkClock unit tt (fun g w => mkReply (Return (tt, tt)) w false).

End DummyClock.

(** Ceiling of a quotient of integers, for a positive divisor. *)
Definition ceil_div (a b : Z) : Z := (a + b - 1) / b.

(** Every pair of neighbours in [l] is exactly [d] apart. *)
Definition spaced (d : Z) (l : list Z) : Prop :=
  forall i : nat, (S i < length l)%nat -> nth (S i) l 0 - nth i l 0 = d.

(** The arithmetic progression [a, a+d, ..., a+(n-1)d]. *)
Fixpoint progression (a d : Z) (n : nat) : list Z :=
  match n with
  | O => []
  | S n' => a :: progression (a + d) d n'
  end.

(** ** Controller *)

Section Controller.

Context {World Tick : Type}.

Local Abbreviation Operation := (Operation World).
Local Abbreviation TickResult := (TickResult World).
Local Abbreviation Strategy := (Strategy World Tick).
Local Abbreviation Clock := (Clock World Tick).

(** [ControllerBase.__init__]. The broker is part of the world; the
    controller only passes the reference on. *)
Record Controller : Type := mkController {
  _clock : Clock;
  _strategies : list Strategy
}.

(** Calls the controller makes, kept in program order (ghost state). *)
Inductive Call : Type :=
| CallInitialize (tk : Tick)
| CallStart (tk : Tick) (strategy : Strategy)
| CallExecuteTick (tk : Tick)
| CallTick (tk : Tick) (strategy : Strategy)
| CallApply (operation : Operation).

(** The state the loop thread works on: the world and the flags set up by
    [ThreadedControllerMixin.__init__]. *)
Record State : Type := mkState {
  world : World;
  _stop_requested : bool;
  _is_running : bool;
  calls : list Call
}.

(** [ThreadedControllerMixin.__init__] *)
Definition fresh (w : World) : State := mkState w false false [].

(** [ThreadedControllerMixin.stop], as far as the loop thread can see it:
    the flag goes up. The notice printed and the [join] belong to the
    calling thread. *)
Definition stop (st : State) : State :=
  mkState (world st) true (_is_running st) (calls st).

Inductive Res (A : Type) : Type :=
| Done (a : A) (st : State)
| Failed (e : exn) (st : State)
| Timeout (st : State).
Arguments Done {A} a st.
Arguments Failed {A} e st.
Arguments Timeout {A} st.

Definition final {A} (r : Res A) : State :=
  match r with
  | Done _ st | Failed _ st | Timeout st => st
  end.

Definition M (A : Type) : Type := State -> Res A.

Definition ret {A} (a : A) : M A := fun st => Done a st.

Definition bind {A B} (m : M A) (k : A -> M B) : M B :=
  fun st =>
    match m st with
    | Done a st' => k a st'
    | Failed e st' => Failed e st'
    | Timeout st' => Timeout st'
    end.

Notation "x <- m ;; k" := (bind m (fun x => k))
  (at level 61, m at next level, right associativity).
Notation "m ;; k" := (bind m (fun _ => k))
  (at level 61, right associativity).

Definition record (c : Call) : M unit :=
  fun st =>
    Done tt (mkState (world st) (_stop_requested st) (_is_running st)
                     (calls st ++ [c])).

Definition set_is_running (b : bool) : M unit :=
  fun st => Done tt (mkState (world st) (_stop_requested st) b (calls st)).

(** A call into external code. If [stop()] was issued while it ran, the
    flag is up afterwards; nothing ever takes it down. *)
Definition call {A} (f : World -> Reply World A) : M A :=
  fun st =>
    let r := f (world st) in
    let st' := mkState (world_after r)
                       (_stop_requested st || stop_called r)
                       (_is_running st) (calls st) in
    match outcome r with
    | Return a => Done a st'
    | Raise e => Failed e st'
    end.

(** A call into external code, entered in the log first. *)
Definition logged {A} (c : Call) (f : World -> Reply World A) : M A :=
  record c ;; call f.

(** The state a logged call leaves behind, whether it returns or raises. *)
Definition after_logged {A} (c : Call) (f : World -> Reply World A)
           (st : State) : State :=
  mkState (world_after (f (world st)))
          (_stop_requested st || stop_called (f (world st)))
          (_is_running st)
          (calls st ++ [c]).

(** [for x in xs: body(x)] *)
Fixpoint for_each {A} (xs : list A) (body : A -> M unit) : M unit :=
  match xs with
  | [] => ret tt
  | x :: xs' => body x ;; for_each xs' body
  end.

(** [[f(x) for x in xs]] *)
Fixpoint comprehension {A B} (f : A -> M B) (xs : list A) : M (list B) :=
  match xs with
  | [] => ret []
  | x :: xs' => y <- f x ;; ys <- comprehension f xs' ;; ret (y :: ys)
  end.

(** Truth value of what a strategy returned: [None] and the empty
    sequence are false. *)
Definition truthy (r : TickResult) : bool :=
  match r with
  | Some (_ :: _) => true
  | _ => false
  end.

Definition elements (r : TickResult) : list Operation :=
  match r with
  | Some ops => ops
  | None => []
  end.

(** [itertools.chain] over the unpacked list of results *)
Definition chain (operations : list TickResult) : list Operation :=
  concat (map elements operations).

(** [ControllerBase.initialize] *)
Definition initialize (self : Controller) (tk : Tick) : M unit :=
  record (CallInitialize tk) ;;
  for_each (_strategies self)
    (fun strategy => logged (CallStart tk strategy) (start strategy tk)).

(** The list comprehension on the first line of [execute_tick]. *)
Definition ask (self : Controller) (tk : Tick) : M (list TickResult) :=
  comprehension
    (fun strategy => logged (CallTick tk strategy) (tick strategy tk))
    (_strategies self).

(** [Controller.execute_tick] *)
Definition execute_tick (self : Controller) (tk : Tick) : M unit :=
  record (CallExecuteTick tk) ;;
  operations <- ask self tk ;;
  let operations := filter truthy operations in
  for_each (chain operations)
    (fun operation => logged (CallApply operation) operation).

(** The [for tick in clock] loop of [_run]; [fuel] bounds the number of
    pulls from the clock. *)
Fixpoint tick_loop (self : Controller) (fuel : nat)
         (clock : cursor (_clock self)) : M unit :=
  match fuel with
  | O => fun st => Timeout st
  | S fuel' =>
      fun st =>
        match call (__next__ (_clock self) clock) st with
        | Done (tk, clock') st1 =>
            if _stop_requested st1 then Done tt st1
            else
              match execute_tick self tk st1 with
              | Done _ st2 =>
                  if _stop_requested st2 then Done tt st2
                  else tick_loop self fuel' clock' st2
              | Failed e st2 => Failed e st2
              | Timeout st2 => Timeout st2
              end
        | Failed StopIteration st1 => Done tt st1
        | Failed e st1 => Failed e st1
        | Timeout st1 => Timeout st1
        end
  end.

(** [ThreadedControllerMixin._run], the body of the background thread. *)
Definition _run (self : Controller) (fuel : nat) : M unit :=
  set_is_running true ;;
  first <- call (__next__ (_clock self) (__iter__ (_clock self))) ;;
  initialize self (fst first) ;;
  tick_loop self fuel (snd first) ;;
  set_is_running false.

(** Readings of a log: the operations applied, the ticks given to
    [initialize] and to [execute_tick]. *)
Definition applied (cs : list Call) : list Operation :=
  flat_map (fun c => match c with CallApply op => [op] | _ => [] end) cs.

Definition initialized (cs : list Call) : list Tick :=
  flat_map (fun c => match c with CallInitialize tk => [tk] | _ => [] end) cs.

Definition executed (cs : list Call) : list Tick :=
  flat_map (fun c => match c with CallExecuteTick tk => [tk] | _ => [] end) cs.

(** The calls made on behalf of [execute_tick]. *)
Definition in_tick_phase (c : Call) : Prop :=
  match c with
  | CallExecuteTick _ | CallTick _ _ | CallApply _ => True
  | CallInitialize _ | CallStart _ _ => False
  end.

(** Two states that differ at most in the stop flag. *)
Definition same_but_stop (st st' : State) : Prop :=
  world st = world st'
  /\ _is_running st = _is_running st'
  /\ calls st = calls st'.

End Controller.

Arguments Done {World Tick A} a st.
Arguments Failed {World Tick A} e st.
Arguments Timeout {World Tick A} st.

(** ** Scenarios *)

(** The end-to-end scenario: the broker keeps the tick values that the
    operations applied to it carry, oldest first; one strategy, whose [tick]
    returns a single operation recording the tick and whose [start] does
    nothing; nobody calls [stop()]. *)
Module Scenario.
Import Datetime.

Definition Broker : Type := list datetime.

Definition record_tick (tk : datetime) : Operation Broker :=
  fun broker => mkReply (Return tt) (broker ++ [tk]) false.

Definition recorder : Strategy Broker datetime :=
  mkStrategy (fun _ broker => mkReply (Return tt) broker false)
             (fun tk broker => mkReply (Return (Some [record_tick tk])) broker false).

Definition controller (clock : SimulatedClock.t) : @Controller Broker datetime :=
  mkController (SimulatedClock.clock clock) [recorder].

End Scenario.

(** Small strategies over a broker that journals numbers, used to run the
    controller on concrete inputs. *)
Module Demo.

Definition Journal : Type := list nat.

Definition push (n : nat) : Operation Journal :=
  fun journal => mkReply (Return tt) (journal ++ [n]) false.

Definition quiet {A} (a : A) : Journal -> Reply Journal A :=
  fun journal => mkReply (Return a) journal false.

(** A strategy that returns the same result at every tick. *)
Definition constant {Tick} (r : TickResult Journal) : Strategy Journal Tick :=
  mkStrategy (fun _ => quiet tt) (fun _ => quiet r).

(** A strategy whose [tick] raises. *)
Definition faulty {Tick} : Strategy Journal Tick :=
  mkStrategy (fun _ => quiet tt)
             (fun _ journal => mkReply (Raise (UserError 7)) journal false).

(** A strategy whose [start] leaves a mark in the journal. *)
Definition marking {Tick} (n : nat) : Strategy Journal Tick :=
  mkStrategy (fun _ journal => mkReply (Return tt) (journal ++ [n]) false)
             (fun _ => quiet None).

(** A strategy during whose second [tick] call [stop()] is issued; the
    journal tells it how many operations were applied before. *)
Definition interrupted {Tick} : Strategy Journal Tick :=
  mkStrategy (fun _ => quiet tt)
             (fun _ journal =>
                mkReply (Return (Some [push 1])) journal
                        (Nat.eqb (length journal) 1)).

(** Controllers over a clock that never ends. *)
Definition ordered : @Controller Journal unit :=
  mkController DummyClock.clock
               [constant (Some [push 1; push 2]); constant (Some [push 3])].

Definition with_empty : @Controller Journal unit :=
  mkController DummyClock.clock
               [constant (Some []); constant (Some [push 1])].

Definition with_faulty : @Controller Journal unit :=
  mkController DummyClock.clock
               [constant (Some [push 1]); faulty; constant (Some [push 2])].

Definition starting : @Controller Journal unit :=
  mkController DummyClock.clock [marking 10; marking 20].

Definition stopped_midway : @Controller Journal unit :=
  mkController DummyClock.clock [interrupted].

(** A controller over a simulated clock. *)
Definition simulated (clock : SimulatedClock.t)
  : @Controller Journal Datetime.datetime :=
  mkController (SimulatedClock.clock clock) [marking 10; marking 20].

(** The state of a controller just constructed, with an empty journal. *)
Definition idle : @State Journal unit := fresh [].

Definition idle_at : @State Journal Datetime.datetime := fresh [].

(** The loop is running and one operation has been applied. *)
Definition one_applied : @State Journal unit := mkState [1%nat] false true [].

(** A state in which [stop()] has already been called. *)
Definition stop_pending : @State Journal unit := stop idle.

End Demo.

(** ** The rest of the module *)

(** [IntervalClock]: a clock that yields the wall-clock time and sleeps
    between two ticks. [datetime.utcnow] and [time.sleep] belong to the
    world: the first reads it, the second acts on it, may raise, and may
    coincide with a [stop()]. *)
Module IntervalClock.
Import Datetime.

Section WithWorld.

Context {World : Type}.
Variable utcnow : World -> datetime.
Variable sleep : Z -> World -> Reply World unit.

(** [__init__]: stores [interval], the number handed to [sleep]. *)
Record t : Type := make {
  interval : Z
}.

(** The generator of [__iter__]: not yet run, or suspended at the
    [yield]. The loop is [while True]: it has no other state. *)
Inductive generator : Type :=
| Created
| Suspended.

Definition __iter__ (self : t) : generator := Created.

(** Resuming the generator: from the [yield] the body first sleeps, then
    goes round the loop and reads the time; the first time it reads the
    time at once. An exception of [sleep] leaves the generator as it is,
    except [StopIteration], which a generator body cannot let through: it
    comes out as [RuntimeError]. *)
Definition next (self : t) (g : generator) (w : World)
  : Reply World (datetime * generator) :=
  match g with
  | Created => mkReply (Return (utcnow w, Suspended)) w false
  | Suspended =>
      let r := sleep (interval self) w in
      match outcome r with
      | Return _ =>
          mkReply (Return (utcnow (world_after r), Suspended))
                  (world_after r) (stop_called r)
      | Raise StopIteration =>
          mkReply (Raise RuntimeError) (world_after r) (stop_called r)
      | Raise e => mkReply (Raise e) (world_after r) (stop_called r)
      end
  end.

(** The ticks of at most [fuel] pulls, with the world they leave; [None]
    when a pull raised. *)
Fixpoint pulls (self : t) (fuel : nat) (g : generator) (w : World)
  : option (list datetime) * World :=
  match fuel with
  | O => (Some [], w)
  | S fuel' =>
      let r := next self g w in
      match outcome r with
      | Return (tk, g') =>
          match pulls self fuel' g' (world_after r) with
          | (Some ts, w') => (Some (tk :: ts), w')
          | (None, w') => (None, w')
          end
      | Raise _ => (None, world_after r)
      end
  end.

Definition clock (self : t) : Clock World datetime :=
  mkClock generator (__iter__ self) (next self).

End WithWorld.

End IntervalClock.

(** Neighbours in [l] are at least [d] apart. *)
Definition gaps_at_least (d : Z) (l : list Z) : Prop :=
  forall i : nat, (S i < length l)%nat -> nth i l 0 + d <= nth (S i) l 0.

Section Effects.

Context {World Tick : Type}.

(** The world after applying operations one after the other, whatever each
    of them answers. *)
Definition apply_all (ops : list (Operation World)) (w : World) : World :=
  fold_left (fun w' operation => world_after (operation w')) ops w.

(** The world after the [start] hooks of strategies have run one after the
    other, whatever each of them answers. *)
Definition start_all (tk : Tick) (xs : list (Strategy World Tick)) (w : World)
  : World :=
  fold_left (fun w' strategy => world_after (start strategy tk w')) xs w.


(** A call that always returns and never coincides with a [stop()]. *)
Definition calm {A} (f : World -> Reply World A) : Prop :=
  forall w, (exists a, outcome (f w) = Return a) /\ stop_called (f w) = false.

(** A strategy whose hooks are calm and return calm operations. *)
Definition calm_strategy (strategy : Strategy World Tick) : Prop :=
  forall tk,
    calm (start strategy tk)
    /\ calm (tick strategy tk)
    /\ forall w r,
        outcome (tick strategy tk w) = Return r -> Forall calm (elements r).

(** How a loop over a simulated clock ends, given how the traversal of the
    clock ends. *)
Definition loop_ending (ending : SimulatedClock.Ending) (st : @State World Tick)
  : @Res World Tick unit :=
  match ending with
  | SimulatedClock.Ended => Done tt st
  | SimulatedClock.Errored e => Failed e st
  | SimulatedClock.Unfinished => Timeout st
  end.

(** A clock that is never exhausted. *)
Definition endless (clock : Clock World Tick) : Prop :=
  forall (g : cursor clock) (w : World),
    outcome (__next__ clock g w) <> Raise StopIteration.

End Effects.

(** [ThreadedControllerMixin]: what [run] and [stop] do to the controller,
    seen from the thread that calls them. The thread object only matters as
    being there or not; its body is [_run], on the state both threads
    share. The notice [stop] prints is left out. *)
Module ThreadedControllerMixin.

(** What the misuse of the life cycle raises in the calling thread. *)
Inductive Misuse : Type :=
| AssertionError
| AttributeError.

Section WithWorld.

Context {World Tick : Type}.

Record t : Type := make {
  _main_loop : option unit;
  shared : @State World Tick
}.

(** [__init__] *)
Definition __init__ (w : World) : t := make None (fresh w).

(** [run]: refuses a second thread; otherwise the thread is made and
    started. *)
Definition run (self : t) : Misuse + t :=
  match _main_loop self with
  | None => inr (make (Some tt) (shared self))
  | Some _ => inl AssertionError
  end.

(** [stop]: the flag is set first; [join] is then looked up on
    [_main_loop], which fails when there is no thread, and otherwise waits
    for the loop to end. *)
Definition stop (self : t) : option Misuse * t :=
  let self' := make (_main_loop self) (stop (shared self)) in
  match _main_loop self with
  | None => (Some AttributeError, self')
  | Some _ => (None, self')
  end.

End WithWorld.

End ThreadedControllerMixin.

(** More concrete collaborators, for running the rest of the module. *)
Module Trial.
Import Datetime.

(** An operation that raises, after having left its mark in the journal. *)
Definition refusing : Operation Demo.Journal :=
  fun journal => mkReply (Raise (UserError 9)) (journal ++ [0%nat]) false.

Definition with_refusal : @Controller Demo.Journal unit :=
  mkController DummyClock.clock
               [Demo.constant (Some [Demo.push 1; refusing; Demo.push 2])].

(** A world that is nothing but the wall-clock time, in microseconds; a
    sleep of [d] seconds takes seven microseconds more than asked. *)
Definition Time : Type := Z.

Definition utcnow (now : Time) : datetime := now.

Definition sleep (d : Z) (now : Time) : Reply Time unit :=
  mkReply (Return tt) (now + d * US_PER_SECOND + 7) false.

(** A strategy whose [start] raises, after having left its mark. *)
Definition unstartable : Strategy Demo.Journal unit :=
  mkStrategy (fun _ journal => mkReply (Raise (UserError 3)) (journal ++ [0%nat]) false)
             (fun _ => Demo.quiet None).

Definition with_unstartable : @Controller Demo.Journal unit :=
  mkController DummyClock.clock
               [Demo.marking 10; unstartable; Demo.marking 20].

(** The floats [1e-7] ([0x1.ad7f29abcaf48p-24]) and [1.5e-6]
    ([0x1.92a737110e454p-20]). *)
Definition tenth_of_a_microsecond : float :=
  S754_finite false 7555786372591432 (-76).

Definition microsecond_and_a_half : float :=
  S754_finite false 7083549724304468 (-72).

(** A controller never run, over a journal still empty. *)
Definition never_run : @ThreadedControllerMixin.t Demo.Journal unit :=
  ThreadedControllerMixin.__init__ [].

End Trial.

(** * Properties *)

(** ** Arithmetic *)

Lemma ceil_div_bounds (a b : Z) :
  0 < b -> (ceil_div a b - 1) * b < a <= ceil_div a b * b.
Proof.
  intros Hb. unfold ceil_div.
  pose proof (Z.div_mod (a + b - 1) b ltac:(lia)) as Hdm.
  pose proof (Z.mod_pos_bound (a + b - 1) b Hb) as Hm.
  nia.
Qed.

Lemma ceil_div_unique (a b n : Z) :
  0 < b -> (n - 1) * b < a <= n * b -> ceil_div a b = n.
Proof.
  intros Hb Hn. pose proof (ceil_div_bounds a b Hb) as Hc. nia.
Qed.

Lemma progression_length (a d : Z) (n : nat) : length (progression a d n) = n.
Proof.
  revert a. induction n as [|n IH]; intros a; simpl; [reflexivity|].
  now rewrite IH.
Qed.

Lemma progression_nth (n : nat) :
  forall (a d : Z) (i : nat),
    (i < n)%nat -> nth i (progression a d n) 0 = a + Z.of_nat i * d.
Proof.
  induction n as [|n IH]; intros a d i Hi; [lia|].
  destruct i as [|i]; simpl nth.
  - simpl. lia.
  - rewrite IH by lia. lia.
Qed.

Lemma progression_spaced (a d : Z) (n : nat) : spaced d (progression a d n).
Proof.
  intros i Hi. rewrite progression_length in Hi.
  rewrite !progression_nth by lia. lia.
Qed.

Lemma progression_below (n : nat) :
  forall a d bound : Z,
    0 <= d -> a + (Z.of_nat n - 1) * d < bound ->
    Forall (fun x => x < bound) (progression a d n).
Proof.
  induction n as [|n IH]; intros a d bound Hd Hlast; simpl; constructor.
  - nia.
  - apply IH; [assumption|]. nia.
Qed.

(** ** SimulatedClock *)

Section SimulatedClockFacts.
Import Datetime.

Lemma MAX_value : MAX = 315537897599999999.
Proof. reflexivity. Qed.

Lemma add_in_range (d td : Z) :
  0 <= d + td <= MAX -> add d td = Return (d + td).
Proof.
  intros H. unfold add.
  destruct (Z.leb_spec 0 (d + td)); [|lia].
  destruct (Z.leb_spec (d + td) MAX); [|lia].
  reflexivity.
Qed.

Lemma add_too_late (d td : Z) : MAX < d + td -> add d td = Raise OverflowError.
Proof.
  intros H. unfold add.
  destruct (Z.leb_spec (d + td) MAX); [lia|].
  now rewrite andb_false_r.
Qed.

Lemma seconds_in_range (n : Z) :
  - MAX_DELTA_DAYS * SECONDS_PER_DAY <= n < (MAX_DELTA_DAYS + 1) * SECONDS_PER_DAY ->
  seconds n = Return (n * US_PER_SECOND).
Proof.
  intros H. unfold seconds. cbv zeta.
  assert (Hd : - MAX_DELTA_DAYS <= n / SECONDS_PER_DAY <= MAX_DELTA_DAYS).
  { unfold MAX_DELTA_DAYS, SECONDS_PER_DAY in *. split.
    - apply Z.div_le_lower_bound; lia.
    - apply Z.lt_succ_r. apply Z.div_lt_upper_bound; lia. }
  destruct (Z.leb_spec (- MAX_DELTA_DAYS) (n / SECONDS_PER_DAY)); [|lia].
  destruct (Z.leb_spec (n / SECONDS_PER_DAY) MAX_DELTA_DAYS); [|lia].
  reflexivity.
Qed.

Lemma seconds_value (n : Z) (td : timedelta) :
  seconds n = Return td -> td = n * US_PER_SECOND.
Proof.
  unfold seconds. cbv zeta.
  destruct (_ && _); intros H; [|discriminate]. now inversion H.
Qed.

Lemma init_fields (a b i : Z) (self : SimulatedClock.t) :
  SimulatedClock.__init__ a b i = Return self ->
  self = SimulatedClock.make a b (i * US_PER_SECOND).
Proof.
  unfold SimulatedClock.__init__, of_seconds.
  destruct (seconds i) as [td|e] eqn:E; intros H; [|discriminate].
  apply seconds_value in E. subst td. now inversion H.
Qed.

Lemma loop_head_below (self : SimulatedClock.t) (current : Z) :
  current < SimulatedClock.stop self ->
  SimulatedClock.loop_head self current
  = Return (current, SimulatedClock.Suspended current).
Proof.
  intros H. unfold SimulatedClock.loop_head.
  destruct (Z.ltb_spec current (SimulatedClock.stop self)); [reflexivity|lia].
Qed.

Lemma loop_head_reached (self : SimulatedClock.t) (current : Z) :
  SimulatedClock.stop self <= current ->
  SimulatedClock.loop_head self current = Raise StopIteration.
Proof.
  intros H. unfold SimulatedClock.loop_head.
  destruct (Z.ltb_spec current (SimulatedClock.stop self)); [lia|reflexivity].
Qed.

Lemma ending_after_finished (last : Z) (self : SimulatedClock.t) :
  SimulatedClock.ending_after last self <> SimulatedClock.Unfinished.
Proof. unfold SimulatedClock.ending_after. destruct (_ <=? _); discriminate. Qed.

(** From a generator suspended at [current], with [n] more ticks to come. *)
Lemma pulls_suspended (self : SimulatedClock.t) (n : nat) :
  forall (current : Z) (fuel : nat),
    0 < SimulatedClock.interval self ->
    0 <= current ->
    SimulatedClock.stop self <= MAX ->
    current + Z.of_nat n * SimulatedClock.interval self
      < SimulatedClock.stop self ->
    SimulatedClock.stop self
      <= current + (Z.of_nat n + 1) * SimulatedClock.interval self ->
    (n < fuel)%nat ->
    SimulatedClock.pulls self fuel (SimulatedClock.Suspended current)
    = (progression (current + SimulatedClock.interval self)
                   (SimulatedClock.interval self) n,
       SimulatedClock.ending_after
         (current + Z.of_nat n * SimulatedClock.interval self) self).
Proof.
  induction n as [|n IH]; intros current fuel Hi Hc Hmax Hlo Hhi Hfuel;
    (destruct fuel as [|fuel]; [lia|]).
  - simpl SimulatedClock.pulls. unfold SimulatedClock.ending_after.
    replace (current + Z.of_nat 0 * SimulatedClock.interval self)
      with current in * by lia.
    destruct (Z.leb_spec (current + SimulatedClock.interval self) MAX).
    + rewrite add_in_range by lia. rewrite loop_head_reached by lia.
      reflexivity.
    + rewrite add_too_late by lia. reflexivity.
  - assert (Hs : Z.of_nat (S n) = Z.of_nat n + 1) by lia.
    rewrite Hs in *. clear Hs.
    assert (Hn : 0 <= Z.of_nat n * SimulatedClock.interval self) by nia.
    simpl SimulatedClock.pulls.
    rewrite add_in_range by lia.
    rewrite loop_head_below; [|lia].
    rewrite IH; try lia.
    simpl progression.
    replace (current + SimulatedClock.interval self
             + Z.of_nat n * SimulatedClock.interval self)
      with (current + (Z.of_nat n + 1) * SimulatedClock.interval self) by lia.
    reflexivity.
Qed.

(** The whole traversal, for a clock whose range is not empty. *)
Lemma produced_progression (self : SimulatedClock.t) (fuel : nat) :
  let i := SimulatedClock.interval self in
  let a := SimulatedClock.start self in
  let n := Z.to_nat (ceil_div (SimulatedClock.stop self - a) i) in
  0 < i ->
  is_datetime a ->
  is_datetime (SimulatedClock.stop self) ->
  a < SimulatedClock.stop self ->
  (n < fuel)%nat ->
  SimulatedClock.produced self fuel
  = (progression a i n,
     SimulatedClock.ending_after (a + (Z.of_nat n - 1) * i) self).
Proof.
  intros i a n Hi [Ha _] [_ Hb] Hlt Hfuel.
  pose proof (ceil_div_bounds (SimulatedClock.stop self - a) i Hi) as Hc.
  assert (Hn : Z.of_nat n = ceil_div (SimulatedClock.stop self - a) i).
  { subst n. rewrite Z2Nat.id; [reflexivity|]. nia. }
  rewrite <- Hn in Hc. clearbody n. subst i a.
  destruct n as [|m]; [simpl in Hc; lia|].
  destruct fuel as [|fuel]; [lia|].
  assert (Hs : Z.of_nat (S m) = Z.of_nat m + 1) by lia.
  rewrite Hs in *. clear Hs Hn.
  unfold SimulatedClock.produced, SimulatedClock.__iter__.
  simpl SimulatedClock.pulls.
  rewrite loop_head_below; [|lia].
  rewrite (pulls_suspended self m); try lia.
  simpl progression.
  replace (Z.of_nat m + 1 - 1) with (Z.of_nat m) by lia.
  reflexivity.
Qed.

(** A clock with interval zero and a range that is not empty yields [start]
    at every pull. *)
Lemma zero_interval_pulls (a b : Z) (fuel : nat) :
  is_datetime a -> a < b ->
  SimulatedClock.pulls (SimulatedClock.make a b 0) fuel
                       (SimulatedClock.Suspended a)
  = (repeat a fuel, SimulatedClock.Unfinished).
Proof.
  intros Ha Hlt. induction fuel as [|fuel IH]; [reflexivity|].
  simpl SimulatedClock.pulls.
  rewrite add_in_range by (unfold is_datetime in Ha; lia).
  replace (a + 0) with a by lia.
  rewrite loop_head_below by (simpl; lia).
  now rewrite IH.
Qed.

Lemma zero_interval_produced (a b : Z) (fuel : nat) :
  is_datetime a -> a < b ->
  SimulatedClock.produced (SimulatedClock.make a b 0) fuel
  = (repeat a fuel, SimulatedClock.Unfinished).
Proof.
  intros Ha Hlt. destruct fuel as [|fuel]; [reflexivity|].
  unfold SimulatedClock.produced, SimulatedClock.__iter__.
  simpl SimulatedClock.pulls.
  rewrite loop_head_below by (simpl; lia).
  now rewrite zero_interval_pulls.
Qed.

Lemma microseconds_value (us : Z) (td : timedelta) :
  microseconds us = Return td -> td = us.
Proof.
  unfold microseconds. cbv zeta.
  destruct (_ && _); intros H; [|discriminate]. now inversion H.
Qed.

End SimulatedClockFacts.

Section SimulatedClockClaims.
Import Datetime.

(** C3, as the claim has it, fails for intervals that are not whole
    seconds. The float [1e-7] is positive, yet the constructor stores it as
    [timedelta(0)]: over three seconds the clock then yields [start] at
    every pull and never ends, where the claim has 3 * 10^7 ticks. The float
    [1.5e-6] is stored as two microseconds: over ten microseconds the clock
    yields five ticks, two microseconds apart, where the claim has
    ceil(10 / 1.5) = 7 ticks. *)
Lemma fractional_interval_is_rounded :
  is_positive (Float Trial.tenth_of_a_microsecond) = true
  /\ SimulatedClock.__init__ 0 3000000 (Float Trial.tenth_of_a_microsecond)
     = Return (SimulatedClock.make 0 3000000 0)
  /\ (forall fuel : nat,
         SimulatedClock.produced (SimulatedClock.make 0 3000000 0) fuel
         = (repeat 0 fuel, SimulatedClock.Unfinished))
  /\ is_positive (Float Trial.microsecond_and_a_half) = true
  /\ SimulatedClock.__init__ 0 10 (Float Trial.microsecond_and_a_half)
     = Return (SimulatedClock.make 0 10 2)
  /\ SimulatedClock.produced (SimulatedClock.make 0 10 2) 10
     = ([0; 2; 4; 6; 8], SimulatedClock.Ended).
Proof.
  split; [reflexivity|]. split; [vm_compute; reflexivity|]. split.
  - intros fuel. apply zero_interval_produced; [|lia].
    unfold is_datetime. rewrite MAX_value. lia.
  - split; [reflexivity|]. split; vm_compute; reflexivity.
Qed.

(** The two floats of the previous lemma are binary64 numbers, the ones
    nearest to 10^-7 and to 1.5 * 10^-6: each is within half a unit in the
    last place of the decimal it stands for. *)
Example floats_nearest_to_their_decimals :
  valid_binary prec emax Trial.tenth_of_a_microsecond = true
  /\ Trial.tenth_of_a_microsecond = S754_finite false 7555786372591432 (-76)
  /\ Z.abs (7555786372591432 * 10 ^ 7 - 2 ^ 76) * 2 <= 10 ^ 7
  /\ valid_binary prec emax Trial.microsecond_and_a_half = true
  /\ Trial.microsecond_and_a_half = S754_finite false 7083549724304468 (-72)
  /\ Z.abs (7083549724304468 * 10 ^ 7 - 15 * 2 ^ 72) * 2 <= 10 ^ 7
  /\ valid_binary prec emax million = true
  /\ whole million = 1000000
  /\ fraction million = S754_zero false.
Proof. repeat split; vm_compute; congruence. Qed.

(** C3, amended. The constructor stores [timedelta(seconds=interval)]: a
    whole number of seconds as it is, positive when the number is, a float
    rounded to whole microseconds. For timestamps [start < stop], when the
    interval stored is positive, one traversal of the clock produces a
    finite sequence and then ends; the sequence has
    ceil((stop - start) / interval) elements, for the interval stored,
    neighbours are exactly that interval apart, every element is below
    [stop] and the first one is [start]. When the interval stored is zero,
    the traversal yields [start] at every pull and never ends. *)
Theorem simulated_clock_sequence
        (start stop : Z) (interval : number) (self : SimulatedClock.t) :
  is_datetime start ->
  is_datetime stop ->
  start < stop ->
  SimulatedClock.__init__ start stop interval = Return self ->
  (forall n : Z,
      interval = Int n ->
      SimulatedClock.interval self = n * US_PER_SECOND
      /\ (0 < n -> 0 < SimulatedClock.interval self))
  /\ (forall x : float,
         interval = Float x ->
         SimulatedClock.interval self
         = whole x * US_PER_SECOND
           + round_half_even (SFmul prec emax (fraction x) million))
  /\ (0 < SimulatedClock.interval self ->
      exists (ticks : list datetime) (ending : SimulatedClock.Ending),
        (forall fuel : nat,
            (length ticks < fuel)%nat ->
            SimulatedClock.produced self fuel = (ticks, ending))
        /\ ending <> SimulatedClock.Unfinished
        /\ Z.of_nat (length ticks)
           = ceil_div (stop - start) (SimulatedClock.interval self)
        /\ spaced (SimulatedClock.interval self) ticks
        /\ Forall (fun tk => tk < stop) ticks
        /\ hd_error ticks = Some start)
  /\ (SimulatedClock.interval self = 0 ->
      forall fuel : nat,
        SimulatedClock.produced self fuel
        = (repeat start fuel, SimulatedClock.Unfinished)).
Proof.
  intros Ha Hb Hlt Hinit.
  unfold SimulatedClock.__init__ in Hinit.
  destruct (of_seconds interval) as [td|e] eqn:Hstored; [|discriminate Hinit].
  inversion Hinit; subst self. clear Hinit. simpl SimulatedClock.interval.
  split; [|split; [|split]].
  - intros n ->. apply seconds_value in Hstored. subst td.
    split; [reflexivity|]. unfold US_PER_SECOND. lia.
  - intros x ->. unfold of_seconds, float_seconds in Hstored.
    destruct x; try discriminate Hstored;
      now apply microseconds_value in Hstored.
  - intros Htd.
    pose proof (ceil_div_bounds (stop - start) td Htd) as Hc.
    set (n := Z.to_nat (ceil_div (stop - start) td)).
    assert (Hn : Z.of_nat n = ceil_div (stop - start) td).
    { unfold n. rewrite Z2Nat.id; [reflexivity|]. nia. }
    exists (progression start td n).
    exists (SimulatedClock.ending_after
              (start + (Z.of_nat n - 1) * td)
              (SimulatedClock.make start stop td)).
    repeat split.
    + intros fuel Hfuel. rewrite progression_length in Hfuel.
      now apply (produced_progression (SimulatedClock.make start stop td)).
    + apply ending_after_finished.
    + now rewrite progression_length.
    + apply progression_spaced.
    + apply progression_below; [lia|]. rewrite Hn. lia.
    + destruct n as [|m]; [|reflexivity]. simpl in Hn. nia.
  - intros -> fuel. now apply zero_interval_produced.
Qed.

Lemma simulated_clock_sequence_witness :
  SimulatedClock.interval (SimulatedClock.make 0 10 2)
  = whole Trial.microsecond_and_a_half * US_PER_SECOND
    + round_half_even
        (SFmul prec emax (fraction Trial.microsecond_and_a_half) million)
  /\ (exists (ticks : list datetime) (ending : SimulatedClock.Ending),
         (forall fuel : nat,
             (length ticks < fuel)%nat ->
             SimulatedClock.produced (SimulatedClock.make 0 10 2) fuel
             = (ticks, ending))
         /\ ending <> SimulatedClock.Unfinished
         /\ Z.of_nat (length ticks)
            = ceil_div (10 - 0)
                       (SimulatedClock.interval (SimulatedClock.make 0 10 2))
         /\ spaced (SimulatedClock.interval (SimulatedClock.make 0 10 2)) ticks
         /\ Forall (fun tk => tk < 10) ticks
         /\ hd_error ticks = Some 0).
Proof.
  destruct (simulated_clock_sequence
              0 10 (Float Trial.microsecond_and_a_half)
              (SimulatedClock.make 0 10 2))
    as (_ & Hfloat & Hseq & _).
  - unfold is_datetime. rewrite MAX_value. lia.
  - unfold is_datetime. rewrite MAX_value. lia.
  - lia.
  - vm_compute. reflexivity.
  - split; [exact (Hfloat _ eq_refl)|].
    apply Hseq. simpl. lia.
Defined.

(** The sequence of the previous lemma, run: seven seconds in steps of
    three give three ticks. *)
Example simulated_clock_seven_by_three :
  SimulatedClock.produced (SimulatedClock.make 0 7000000 3000000) 10
  = ([0; 3000000; 6000000], SimulatedClock.Ended).
Proof. reflexivity. Qed.

(** Close to [datetime.max] the traversal yields the same ticks and then
    ends with the error of the addition. *)
Example simulated_clock_at_the_end_of_time :
  SimulatedClock.produced (SimulatedClock.make (MAX - 5) MAX 3) 10
  = ([MAX - 5; MAX - 2], SimulatedClock.Errored OverflowError).
Proof. reflexivity. Qed.

(** C8. When [stop <= start] the first pull already finds the clock
    exhausted: the traversal is empty and ends without an error. *)
Theorem simulated_clock_empty (self : SimulatedClock.t) (fuel : nat) :
  SimulatedClock.stop self <= SimulatedClock.start self ->
  SimulatedClock.next self (SimulatedClock.__iter__ self) = Raise StopIteration
  /\ SimulatedClock.produced self (S fuel) = ([], SimulatedClock.Ended).
Proof.
  intros H.
  unfold SimulatedClock.produced, SimulatedClock.__iter__.
  simpl. rewrite loop_head_reached by assumption. split; reflexivity.
Qed.

Lemma simulated_clock_empty_witness :
  SimulatedClock.next (SimulatedClock.make 5000000 5000000 1000000)
                      (SimulatedClock.__iter__
                         (SimulatedClock.make 5000000 5000000 1000000))
  = Raise StopIteration
  /\ SimulatedClock.produced (SimulatedClock.make 5000000 5000000 1000000) 4
     = ([], SimulatedClock.Ended).
Proof.
  apply (simulated_clock_empty (SimulatedClock.make 5000000 5000000 1000000) 3).
  simpl. lia.
Defined.

(** C4, as the claim has it, fails: an interval of zero seconds, and a
    negative one, are accepted by the constructor. *)
Lemma init_accepts_zero_interval :
  SimulatedClock.__init__ 0 3000000 0 = Return (SimulatedClock.make 0 3000000 0)
  /\ SimulatedClock.__init__ 0 3000000 (-1)
     = Return (SimulatedClock.make 0 3000000 (-1000000))
  /\ ~ (exists e : exn, SimulatedClock.__init__ 0 3000000 0 = Raise e).
Proof.
  repeat split. intros [e H]. discriminate H.
Qed.

(** C4, amended. The constructor does not validate [interval]: a zero or
    negative number of seconds (within what a [timedelta] can hold) is
    stored as it is, no error is raised. With interval zero and
    [start < stop] every pull then yields [start], so that a traversal never
    ends. *)
Theorem init_does_not_validate_interval (start stop interval : Z) :
  interval <= 0 ->
  - MAX_DELTA_DAYS * SECONDS_PER_DAY <= interval ->
  SimulatedClock.__init__ start stop interval
  = Return (SimulatedClock.make start stop (interval * US_PER_SECOND))
  /\ (interval = 0 -> is_datetime start -> start < stop ->
      forall fuel : nat,
        SimulatedClock.produced (SimulatedClock.make start stop 0) fuel
        = (repeat start fuel, SimulatedClock.Unfinished)).
Proof.
  intros Hle Hlo. split.
  - unfold SimulatedClock.__init__, of_seconds.
    rewrite seconds_in_range; [reflexivity|].
    unfold MAX_DELTA_DAYS, SECONDS_PER_DAY in *. lia.
  - intros _ Ha Hlt fuel. destruct fuel as [|fuel]; [reflexivity|].
    unfold SimulatedClock.produced, SimulatedClock.__iter__.
    simpl SimulatedClock.pulls.
    rewrite loop_head_below by (simpl; lia).
    now rewrite zero_interval_pulls.
Qed.

Lemma init_does_not_validate_interval_witness :
  SimulatedClock.__init__ 0 3000000 0
  = Return (SimulatedClock.make 0 3000000 (0 * US_PER_SECOND))
  /\ (forall fuel : nat,
        SimulatedClock.produced (SimulatedClock.make 0 3000000 0) fuel
        = (repeat 0 fuel, SimulatedClock.Unfinished)).
Proof.
  destruct (init_does_not_validate_interval 0 3000000 0) as [Hinit Hloop].
  - lia.
  - unfold MAX_DELTA_DAYS, SECONDS_PER_DAY. lia.
  - split; [exact Hinit|]. apply Hloop.
    + reflexivity.
    + unfold is_datetime. rewrite MAX_value. lia.
    + lia.
Defined.

End SimulatedClockClaims.

(** ** The controller's building blocks *)

Section ControllerFacts.

Context {World Tick : Type}.

Local Abbreviation Controller := (@Controller World Tick).
Local Abbreviation State := (@State World Tick).
Local Abbreviation Call := (@Call World Tick).
Local Abbreviation Res := (@Res World Tick).

Implicit Types (st : State) (self : Controller) (tk : Tick).

Lemma logged_eq {A} (c : Call) (f : World -> Reply World A) st :
  logged c f st
  = match outcome (f (world st)) with
    | Return a => Done a (after_logged c f st)
    | Raise e => Failed e (after_logged c f st)
    end.
Proof. reflexivity. Qed.

Lemma call_eq {A} (f : World -> Reply World A) st :
  call f st
  = let st' := mkState (world_after (f (world st)))
                       (_stop_requested st || stop_called (f (world st)))
                       (_is_running st) (calls st) in
    match outcome (f (world st)) with
    | Return a => Done a st'
    | Raise e => Failed e st'
    end.
Proof. reflexivity. Qed.

Lemma for_each_cons {A} (x : A) (xs : list A) (body : A -> M unit) st :
  for_each (x :: xs) body st
  = match body x st with
    | Done _ st' => for_each xs body st'
    | Failed e st' => Failed e st'
    | Timeout st' => Timeout st'
    end.
Proof. reflexivity. Qed.

Lemma comprehension_cons {A B} (f : A -> M B) (x : A) (xs : list A) st :
  comprehension f (x :: xs) st
  = match f x st with
    | Done y st1 =>
        match comprehension f xs st1 with
        | Done ys st2 => Done (y :: ys) st2
        | Failed e st2 => Failed e st2
        | Timeout st2 => Timeout st2
        end
    | Failed e st1 => Failed e st1
    | Timeout st1 => Timeout st1
    end.
Proof.
  simpl. unfold bind. destruct (f x st); reflexivity.
Qed.

(** A loop of logged calls: it logs one entry per element reached, and
    stops at the first call that raises. *)
Lemma for_each_logged {A} (mk : A -> Call) (f : A -> World -> Reply World unit)
      (xs : list A) :
  forall st,
    match for_each xs (fun x => logged (mk x) (f x)) st with
    | Done _ st' => calls st' = calls st ++ map mk xs
    | Failed e st' =>
        exists (k : nat) (x : A) (w : World),
          nth_error xs k = Some x
          /\ outcome (f x w) = Raise e
          /\ calls st' = calls st ++ map mk (firstn (S k) xs)
    | Timeout _ => False
    end.
Proof.
  induction xs as [|x xs IH]; intros st.
  - simpl. now rewrite app_nil_r.
  - rewrite for_each_cons, logged_eq.
    destruct (outcome (f x (world st))) as [[]|e] eqn:E.
    + specialize (IH (after_logged (mk x) (f x) st)).
      destruct (for_each xs _ _) as [[] st'|e st'|st']; [| |exact IH].
      * rewrite IH. simpl. now rewrite <- app_assoc.
      * destruct IH as (k & y & w & Hk & Hw & Hc).
        exists (S k), y, w. repeat split; try assumption.
        rewrite Hc. simpl calls. now rewrite <- app_assoc.
    + exists O, x, (world st). repeat split; try assumption.
Qed.

Lemma for_each_logged_stop {A} (mk : A -> Call)
      (f : A -> World -> Reply World unit) (xs : list A) :
  forall st,
    _stop_requested st = true ->
    _stop_requested (final (for_each xs (fun x => logged (mk x) (f x)) st)) = true.
Proof.
  induction xs as [|x xs IH]; intros st Hst; [exact Hst|].
  rewrite for_each_cons, logged_eq.
  assert (H : _stop_requested (after_logged (mk x) (f x) st) = true)
    by (simpl; now rewrite Hst).
  destruct (outcome (f x (world st))) as [[]|e].
  - specialize (IH _ H).
    destruct (for_each xs _ _); exact IH.
  - exact H.
Qed.

Lemma for_each_logged_running {A} (mk : A -> Call)
      (f : A -> World -> Reply World unit) (xs : list A) :
  forall st,
    _is_running (final (for_each xs (fun x => logged (mk x) (f x)) st))
    = _is_running st.
Proof.
  induction xs as [|x xs IH]; intros st; [reflexivity|].
  rewrite for_each_cons, logged_eq.
  destruct (outcome (f x (world st))) as [[]|e]; [|reflexivity].
  specialize (IH (after_logged (mk x) (f x) st)).
  destruct (for_each xs _ _); exact IH.
Qed.

(** A comprehension of logged calls: the same, and the values collected
    are values the calls returned, in order. *)
Lemma comprehension_logged {A B} (mk : A -> Call)
      (f : A -> World -> Reply World B) (xs : list A) :
  forall st,
    match comprehension (fun x => logged (mk x) (f x)) xs st with
    | Done ys st' =>
        calls st' = calls st ++ map mk xs
        /\ Forall2 (fun x y => exists w, outcome (f x w) = Return y) xs ys
    | Failed e st' =>
        exists (k : nat) (x : A) (w : World),
          nth_error xs k = Some x
          /\ outcome (f x w) = Raise e
          /\ calls st' = calls st ++ map mk (firstn (S k) xs)
    | Timeout _ => False
    end.
Proof.
  induction xs as [|x xs IH]; intros st.
  - simpl. rewrite app_nil_r. split; [reflexivity|constructor].
  - rewrite comprehension_cons, logged_eq.
    destruct (outcome (f x (world st))) as [y|e] eqn:E.
    + specialize (IH (after_logged (mk x) (f x) st)).
      destruct (comprehension _ xs _) as [ys st'|e st'|st']; [| |exact IH].
      * destruct IH as [Hc Hys]. split.
        -- rewrite Hc. simpl. now rewrite <- app_assoc.
        -- constructor; [|exact Hys]. now exists (world st).
      * destruct IH as (k & z & w & Hk & Hw & Hc).
        exists (S k), z, w. repeat split; try assumption.
        rewrite Hc. simpl calls. now rewrite <- app_assoc.
    + exists O, x, (world st). repeat split; try assumption.
Qed.

(** Whatever the calls of a comprehension leave alone is left alone by the
    comprehension. *)
Lemma comprehension_logged_view {A B V} (mk : A -> Call)
      (f : A -> World -> Reply World B) (view : World -> V) (xs : list A) :
  (forall x w, In x xs -> view (world_after (f x w)) = view w) ->
  forall st,
    view (world (final (comprehension (fun x => logged (mk x) (f x)) xs st)))
    = view (world st).
Proof.
  induction xs as [|x xs IH]; intros Hview st; [reflexivity|].
  rewrite comprehension_cons, logged_eq.
  assert (Hx : view (world (after_logged (mk x) (f x) st)) = view (world st))
    by (simpl; apply Hview; now left).
  destruct (outcome (f x (world st))) as [y|e]; [|exact Hx].
  assert (IH' := IH (fun z w Hz => Hview z w (or_intror Hz))
                    (after_logged (mk x) (f x) st)).
  destruct (comprehension _ xs _); simpl in *; congruence.
Qed.

Lemma chain_filter_truthy (rs : list (TickResult World)) :
  chain (filter truthy rs) = chain rs.
Proof.
  unfold chain. induction rs as [|r rs IH]; [reflexivity|].
  simpl. destruct r as [[|op ops]|]; simpl; now rewrite IH.
Qed.


Lemma applied_app (cs1 cs2 : list Call) :
  applied (cs1 ++ cs2) = applied cs1 ++ applied cs2.
Proof. unfold applied. now rewrite flat_map_app. Qed.

Lemma applied_apply (ops : list (Operation World)) :
  applied (map (@CallApply World Tick) ops) = ops.
Proof. induction ops as [|op ops IH]; [reflexivity|]. simpl. now rewrite IH. Qed.

Lemma applied_tick tk (xs : list (Strategy World Tick)) :
  applied (map (@CallTick World Tick tk) xs) = [].
Proof. induction xs as [|x xs IH]; [reflexivity|]. exact IH. Qed.

Lemma applied_start tk (xs : list (Strategy World Tick)) :
  applied (map (@CallStart World Tick tk) xs) = [].
Proof. induction xs as [|x xs IH]; [reflexivity|]. exact IH. Qed.

Lemma apply_all_snoc (ops : list (Operation World)) (op : Operation World)
      (w : World) :
  apply_all (ops ++ [op]) w = world_after (op (apply_all ops w)).
Proof. unfold apply_all. now rewrite fold_left_app. Qed.

(** The loop that applies operations: the world goes through them in
    order, and the first one that raises is the last one applied. *)
Lemma apply_phase (ops : list (Operation World)) :
  forall st,
    match for_each ops (fun operation => logged (CallApply operation) operation)
                   st with
    | Done _ st' =>
        world st' = apply_all ops (world st)
        /\ calls st' = calls st ++ map CallApply ops
    | Failed e st' =>
        exists (k : nat) (op : Operation World),
          nth_error ops k = Some op
          /\ outcome (op (apply_all (firstn k ops) (world st))) = Raise e
          /\ world st' = apply_all (firstn (S k) ops) (world st)
          /\ calls st' = calls st ++ map CallApply (firstn (S k) ops)
    | Timeout _ => False
    end.
Proof.
  induction ops as [|op ops IH]; intros st.
  - simpl. now rewrite app_nil_r.
  - rewrite for_each_cons, logged_eq.
    destruct (outcome (op (world st))) as [[]|e] eqn:E.
    + specialize (IH (after_logged (CallApply op) op st)).
      destruct (for_each ops _ _) as [[] st'|e st'|st']; [| |exact IH].
      * destruct IH as [Hw Hc]. split; [exact Hw|].
        rewrite Hc. simpl. now rewrite <- app_assoc.
      * destruct IH as (k & op' & Hk & Hraise & Hw & Hc).
        exists (S k), op'. repeat split; try assumption.
        rewrite Hc. simpl calls. now rewrite <- app_assoc.
    + exists O, op. repeat split. exact E.
Qed.

(** The loop of [initialize]: the world goes through the [start] hooks in
    order, and the first one that raises is the last one run. *)
Lemma start_phase tk (xs : list (Strategy World Tick)) :
  forall st,
    match for_each xs (fun strategy => logged (CallStart tk strategy)
                                              (start strategy tk)) st with
    | Done _ st' => world st' = start_all tk xs (world st)
    | Failed e st' =>
        exists (k : nat) (strategy : Strategy World Tick),
          nth_error xs k = Some strategy
          /\ outcome (start strategy tk (start_all tk (firstn k xs) (world st)))
             = Raise e
          /\ world st' = start_all tk (firstn (S k) xs) (world st)
          /\ calls st' = calls st ++ map (CallStart tk) (firstn (S k) xs)
    | Timeout _ => False
    end.
Proof.
  induction xs as [|x xs IH]; intros st; [reflexivity|].
  rewrite for_each_cons, logged_eq.
  destruct (outcome (start x tk (world st))) as [[]|e] eqn:E.
  - specialize (IH (after_logged (CallStart tk x) (start x tk) st)).
    destruct (for_each xs _ _) as [[] st'|e st'|st']; [exact IH| |exact IH].
    destruct IH as (k & s & Hk & Hraise & Hw & Hc).
    exists (S k), s. repeat split; try assumption.
    rewrite Hc. simpl calls. now rewrite <- app_assoc.
  - exists O, x. repeat split. exact E.
Qed.





End ControllerFacts.

(** ** execute_tick *)

Section ExecuteTick.

Context {World Tick : Type}.

Local Abbreviation Controller := (@Controller World Tick).
Local Abbreviation State := (@State World Tick).
Local Abbreviation Strategy := (Strategy World Tick).

Implicit Types (st : State) (self : Controller) (tk : Tick).

(** The two phases of [execute_tick]: ask every strategy, then apply. *)
Lemma execute_tick_eq self tk st :
  execute_tick self tk st
  = match ask self tk (final (record (CallExecuteTick tk) st)) with
    | Done rs st1 =>
        for_each (chain (filter truthy rs))
                 (fun operation => logged (CallApply operation) operation) st1
    | Failed e st1 => Failed e st1
    | Timeout st1 => Timeout st1
    end.
Proof. reflexivity. Qed.

(** The two phases of [execute_tick], and what the first leaves in the
    log. *)
Lemma execute_tick_phases self tk st :
  match ask self tk (final (record (CallExecuteTick tk) st)) with
  | Done rs st1 =>
      calls st1
      = calls st ++ CallExecuteTick tk :: map (CallTick tk) (_strategies self)
      /\ execute_tick self tk st
         = for_each (chain (filter truthy rs))
                    (fun operation => logged (CallApply operation) operation)
                    st1
  | Failed e st1 =>
      execute_tick self tk st = Failed e st1
      /\ (exists (k : nat) (strategy : Strategy) (w : World),
             nth_error (_strategies self) k = Some strategy
             /\ outcome (tick strategy tk w) = Raise e
             /\ calls st1
                = calls st ++ CallExecuteTick tk
                           :: map (CallTick tk) (firstn (S k) (_strategies self)))
  | Timeout _ => False
  end.
Proof.
  pose proof (execute_tick_eq self tk st) as Heq.
  unfold ask in *.
  pose proof (comprehension_logged
                (CallTick tk) (fun strategy => tick strategy tk)
                (_strategies self)
                (final (record (CallExecuteTick tk) st))) as Hask.
  cbv beta in Hask.
  destruct (comprehension _ _ _) as [rs st1|e st1|st1]; [| |exact Hask].
  - destruct Hask as [Hc _]. split; [|exact Heq].
    rewrite Hc. simpl calls. now rewrite <- app_assoc.
  - destruct Hask as (k & s & w & Hk & Hw & Hc).
    split; [exact Heq|].
    exists k, s, w. repeat split; try assumption.
    rewrite Hc. simpl calls. now rewrite <- app_assoc.
Qed.

Lemma applied_asked tk (cs : list (@Call World Tick)) (xs : list Strategy) :
  applied (cs ++ CallExecuteTick tk :: map (CallTick tk) xs) = applied cs.
Proof.
  change (CallExecuteTick tk :: ?l) with ([CallExecuteTick tk] ++ l).
  rewrite !applied_app, applied_tick. simpl. now rewrite app_nil_r.
Qed.




(** C9. [execute_tick] asks every strategy before it applies anything.
    When the strategies have all returned, each has been asked and no
    operation has been applied yet; what remains is to apply the truthy
    results, chained. When instead the call of some strategy raises,
    [execute_tick] ends there with that exception: the strategies up to the
    one that raised have been asked, no operation is applied, and whatever
    the asked strategies left alone (the broker, if they did not touch it
    themselves) is as it was. *)
Theorem execute_tick_asks_before_applying self tk st :
  match ask self tk (final (record (CallExecuteTick tk) st)) with
  | Done rs st1 =>
      calls st1
      = calls st ++ CallExecuteTick tk :: map (CallTick tk) (_strategies self)
      /\ applied (calls st1) = applied (calls st)
      /\ execute_tick self tk st
         = for_each (chain (filter truthy rs))
                    (fun operation => logged (CallApply operation) operation)
                    st1
  | Failed e st1 =>
      execute_tick self tk st = Failed e st1
      /\ (exists (k : nat) (strategy : Strategy) (w : World),
             nth_error (_strategies self) k = Some strategy
             /\ outcome (tick strategy tk w) = Raise e
             /\ calls st1
                = calls st ++ CallExecuteTick tk
                           :: map (CallTick tk) (firstn (S k) (_strategies self)))
      /\ applied (calls st1) = applied (calls st)
      /\ (forall (V : Type) (view : World -> V),
             (forall strategy w,
                 In strategy (_strategies self) ->
                 view (world_after (tick strategy tk w)) = view w) ->
             view (world st1) = view (world st))
  | Timeout _ => False
  end.
Proof.
  pose proof (execute_tick_phases self tk st) as Hphases.
  pose proof (fun V (view : World -> V) Hkeep =>
                comprehension_logged_view
                  (CallTick tk) (fun strategy => tick strategy tk) view
                  (_strategies self) Hkeep
                  (final (record (CallExecuteTick tk) st))) as Hview.
  cbv beta in Hview. fold (ask self tk) in Hview.
  destruct (ask self tk _) as [rs st1|e st1|st1]; [| |exact Hphases].
  - destruct Hphases as [Hc Heq].
    repeat split; [exact Hc| |exact Heq].
    rewrite Hc. apply applied_asked.
  - destruct Hphases as (Heq & k & s & w & Hk & Hw & Hc).
    repeat split; [exact Heq| | |].
    + exists k, s, w. repeat split; assumption.
    + rewrite Hc. apply applied_asked.
    + intros V view Hkeep. exact (Hview V view Hkeep).
Qed.

End ExecuteTick.

(** Running the controllers of [Demo]. *)


(** Strategies [A, B], [A] returning [op1, op2] and [B] returning [op3]:
    the broker receives [op1], [op2], [op3], in this order. *)
Example two_strategies_in_order :
  applied (calls (final (execute_tick Demo.ordered tt Demo.idle)))
  = [Demo.push 1; Demo.push 2; Demo.push 3]
  /\ world (final (execute_tick Demo.ordered tt Demo.idle)) = [1; 2; 3]%nat.
Proof. split; reflexivity. Qed.


(** Strategies [A, B], [A] returning an empty list and [B] returning
    [op1]: exactly [op1] is applied. *)
Example empty_result_then_one_operation :
  applied (calls (final (execute_tick Demo.with_empty tt Demo.idle)))
  = [Demo.push 1]
  /\ world (final (execute_tick Demo.with_empty tt Demo.idle)) = [1%nat].
Proof. split; reflexivity. Qed.

Lemma execute_tick_asks_before_applying_witness :
  execute_tick Demo.with_faulty tt Demo.idle
  = Failed (UserError 7)
           (mkState [] false false
                    [CallExecuteTick tt;
                     CallTick tt (Demo.constant (Some [Demo.push 1]));
                     CallTick tt Demo.faulty])
  /\ applied (calls (final (execute_tick Demo.with_faulty tt Demo.idle))) = [].
Proof.
  pose proof (execute_tick_asks_before_applying Demo.with_faulty tt Demo.idle)
    as H.
  change (ask Demo.with_faulty tt (final (record (CallExecuteTick tt) Demo.idle)))
    with (@Failed Demo.Journal unit (list (TickResult Demo.Journal))
                  (UserError 7)
                  (mkState [] false false
                           [CallExecuteTick tt;
                            CallTick tt (Demo.constant (Some [Demo.push 1]));
                            CallTick tt Demo.faulty])) in H.
  destruct H as (Hfail & _ & Happlied & _).
  split; [exact Hfail|]. rewrite Hfail. exact Happlied.
Defined.

(** ** The tick loop *)

Section TickLoop.

Context {World Tick : Type}.

Local Abbreviation Controller := (@Controller World Tick).
Local Abbreviation State := (@State World Tick).
Local Abbreviation Call := (@Call World Tick).
Local Abbreviation Strategy := (Strategy World Tick).

Implicit Types (st : State) (self : Controller) (tk : Tick).

Lemma initialized_app (cs1 cs2 : list Call) :
  initialized (cs1 ++ cs2) = initialized cs1 ++ initialized cs2.
Proof. unfold initialized. now rewrite flat_map_app. Qed.

Lemma executed_app (cs1 cs2 : list Call) :
  executed (cs1 ++ cs2) = executed cs1 ++ executed cs2.
Proof. unfold executed. now rewrite flat_map_app. Qed.

Lemma initialized_start tk (xs : list Strategy) :
  initialized (map (@CallStart World Tick tk) xs) = [].
Proof. induction xs as [|x xs IH]; [reflexivity|]. exact IH. Qed.

Lemma executed_start tk (xs : list Strategy) :
  executed (map (@CallStart World Tick tk) xs) = [].
Proof. induction xs as [|x xs IH]; [reflexivity|]. exact IH. Qed.

Lemma executed_tick tk (xs : list Strategy) :
  executed (map (@CallTick World Tick tk) xs) = [].
Proof. induction xs as [|x xs IH]; [reflexivity|]. exact IH. Qed.

Lemma executed_apply (ops : list (Operation World)) :
  executed (map (@CallApply World Tick) ops) = [].
Proof. induction ops as [|op ops IH]; [reflexivity|]. exact IH. Qed.

Lemma initialized_tick_phase (cs : list Call) :
  Forall in_tick_phase cs -> initialized cs = [].
Proof.
  induction 1 as [|c cs Hc _ IH]; [reflexivity|].
  destruct c; simpl in *; try contradiction; exact IH.
Qed.

Lemma tick_phase_ticks tk (xs : list Strategy) :
  Forall in_tick_phase (map (@CallTick World Tick tk) xs).
Proof. induction xs; simpl; constructor; simpl; auto. Qed.

Lemma tick_phase_applies (ops : list (Operation World)) :
  Forall in_tick_phase (map (@CallApply World Tick) ops).
Proof. induction ops; simpl; constructor; simpl; auto. Qed.

(** What [execute_tick] adds to the log, however it ends. *)
Lemma execute_tick_log self tk st :
  exists (k : nat) (ops : list (Operation World)),
    calls (final (execute_tick self tk st))
    = calls st ++ CallExecuteTick tk
               :: map (CallTick tk) (firstn k (_strategies self))
               ++ map CallApply ops.
Proof.
  pose proof (execute_tick_phases self tk st) as H.
  destruct (ask self tk _) as [rs st1|e st1|st1]; [| |contradiction].
  - destruct H as (Hc & Heq). rewrite Heq.
    pose proof (for_each_logged
                  (@CallApply World Tick) (fun operation => operation)
                  (chain (filter truthy rs)) st1) as Hlog.
    cbv beta in Hlog.
    exists (length (_strategies self)). rewrite firstn_all.
    destruct (for_each _ _ _) as [[] st2|e st2|st2]; [| |contradiction].
    + exists (chain (filter truthy rs)). simpl final.
      rewrite Hlog, Hc. now rewrite <- app_assoc.
    + destruct Hlog as (j & op & w & _ & _ & Hlog).
      exists (firstn (S j) (chain (filter truthy rs))). simpl final.
      rewrite Hlog, Hc. now rewrite <- app_assoc.
  - destruct H as (Heq & (k & s & w & _ & _ & Hc)).
    exists (S k), []. rewrite Heq. simpl final. rewrite Hc.
    simpl map at 2. now rewrite app_nil_r.
Qed.

Lemma execute_tick_executed self tk st :
  executed (calls (final (execute_tick self tk st)))
  = executed (calls st) ++ [tk].
Proof.
  destruct (execute_tick_log self tk st) as (k & ops & Hc). rewrite Hc.
  change (CallExecuteTick tk :: ?l) with ([CallExecuteTick tk] ++ l).
  rewrite !executed_app, executed_tick, executed_apply. reflexivity.
Qed.

Lemma execute_tick_phase self tk st :
  exists cs : list Call,
    calls (final (execute_tick self tk st)) = calls st ++ cs
    /\ Forall in_tick_phase cs.
Proof.
  destruct (execute_tick_log self tk st) as (k & ops & Hc).
  eexists. split; [exact Hc|].
  constructor; [exact I|]. apply Forall_app. split.
  - apply tick_phase_ticks.
  - apply tick_phase_applies.
Qed.

Lemma execute_tick_never_times_out self tk st st' :
  execute_tick self tk st <> Timeout st'.
Proof.
  pose proof (execute_tick_phases self tk st) as H.
  destruct (ask self tk _) as [rs st1|e st1|st1]; [| |contradiction].
  - destruct H as (_ & Heq). rewrite Heq.
    pose proof (for_each_logged
                  (@CallApply World Tick) (fun operation => operation)
                  (chain (filter truthy rs)) st1) as Hlog.
    cbv beta in Hlog.
    destruct (for_each _ _ _); [discriminate|discriminate|contradiction].
  - destruct H as (Heq & _). rewrite Heq. discriminate.
Qed.

(** One turn of the [for] loop. *)
Lemma tick_loop_eq self fuel (g : cursor (_clock self)) st :
  tick_loop self (S fuel) g st
  = match call (__next__ (_clock self) g) st with
    | Done (tk, g') st1 =>
        if _stop_requested st1 then Done tt st1
        else
          match execute_tick self tk st1 with
          | Done _ st2 =>
              if _stop_requested st2 then Done tt st2
              else tick_loop self fuel g' st2
          | Failed e st2 => Failed e st2
          | Timeout st2 => Timeout st2
          end
    | Failed StopIteration st1 => Done tt st1
    | Failed e st1 => Failed e st1
    | Timeout st1 => Timeout st1
    end.
Proof. reflexivity. Qed.

Lemma call_calls {A} (f : World -> Reply World A) st :
  calls (final (call f st)) = calls st.
Proof. rewrite call_eq. cbv zeta. destruct (outcome _); reflexivity. Qed.

Lemma call_stop {A} (f : World -> Reply World A) st :
  _stop_requested st = true -> _stop_requested (final (call f st)) = true.
Proof.
  intros H. rewrite call_eq. cbv zeta.
  destruct (outcome _); simpl; now rewrite H.
Qed.

Lemma call_never_times_out {A} (f : World -> Reply World A) st st' :
  call f st <> Timeout st'.
Proof. rewrite call_eq. cbv zeta. destruct (outcome _); discriminate. Qed.

(** The loop only makes calls of the tick phase. *)
Lemma tick_loop_phase self fuel :
  forall (g : cursor (_clock self)) st,
  exists cs : list Call,
    calls (final (tick_loop self fuel g st)) = calls st ++ cs
    /\ Forall in_tick_phase cs.
Proof.
  induction fuel as [|fuel IH]; intros g st.
  - exists []. simpl. now rewrite app_nil_r.
  - rewrite tick_loop_eq.
    pose proof (call_calls (__next__ (_clock self) g) st) as Hnext.
    destruct (call _ st) as [[tk g'] st1|e st1|st1]; simpl in Hnext.
    + destruct (_stop_requested st1).
      { exists []. simpl. now rewrite app_nil_r, Hnext. }
      destruct (execute_tick_phase self tk st1) as (cs & Hcs & Hphase).
      destruct (execute_tick self tk st1) as [[] st2|e st2|st2];
        simpl in Hcs; try (exists cs; simpl; now rewrite Hcs, Hnext).
      destruct (_stop_requested st2);
        [exists cs; simpl; now rewrite Hcs, Hnext|].
      destruct (IH g' st2) as (cs' & Hcs' & Hphase').
      exists (cs ++ cs'). split.
      * rewrite Hcs', Hcs, Hnext. now rewrite app_assoc.
      * apply Forall_app. now split.
    + exists []. destruct e; simpl; now rewrite app_nil_r, Hnext.
    + exists []. simpl. now rewrite app_nil_r, Hnext.
Qed.

(** With the stop flag up at the head of the loop nothing more is
    executed: the next tick is pulled and the loop is left. *)
Lemma tick_loop_stopped self fuel (g : cursor (_clock self)) st :
  _stop_requested st = true ->
  calls (final (tick_loop self (S fuel) g st)) = calls st
  /\ (forall st', tick_loop self (S fuel) g st <> Timeout st').
Proof.
  intros Hstop. rewrite tick_loop_eq.
  pose proof (call_calls (__next__ (_clock self) g) st) as Hnext.
  pose proof (call_stop (__next__ (_clock self) g) st Hstop) as Hflag.
  pose proof (call_never_times_out (__next__ (_clock self) g) st) as Hto.
  destruct (call _ st) as [[tk g'] st1|e st1|st1]; simpl in Hnext, Hflag.
  - rewrite Hflag. split; [exact Hnext|discriminate].
  - destruct e; (split; [exact Hnext|discriminate]).
  - exfalso. now apply (Hto st1).
Qed.

(** [initialize]: one entry for the call, one per strategy started. *)
Lemma initialize_log self tk st :
  match initialize self tk st with
  | Done _ st' =>
      calls st'
      = calls st ++ CallInitialize tk :: map (CallStart tk) (_strategies self)
  | Failed e st' =>
      exists (k : nat) (strategy : Strategy) (w : World),
        nth_error (_strategies self) k = Some strategy
        /\ outcome (start strategy tk w) = Raise e
        /\ calls st'
           = calls st ++ CallInitialize tk
                      :: map (CallStart tk) (firstn (S k) (_strategies self))
  | Timeout _ => False
  end.
Proof.
  unfold initialize, bind. simpl.
  pose proof (for_each_logged
                (CallStart tk) (fun strategy => start strategy tk)
                (_strategies self)
                (mkState (world st) (_stop_requested st) (_is_running st)
                         (calls st ++ [CallInitialize tk]))) as H.
  cbv beta in H.
  destruct (for_each _ _ _) as [[] st'|e st'|st']; [| |exact H].
  - rewrite H. simpl. now rewrite <- app_assoc.
  - destruct H as (k & s & w & Hk & Hw & Hc).
    exists k, s, w. repeat split; try assumption.
    rewrite Hc. simpl calls. now rewrite <- app_assoc.
Qed.

(** [initialize], on the world: the [start] hooks are run in the order of
    the collection, up to the first that raises. *)
Lemma initialize_phase self tk st :
  match initialize self tk st with
  | Done _ st' =>
      world st' = start_all tk (_strategies self) (world st)
      /\ calls st'
         = calls st ++ CallInitialize tk :: map (CallStart tk) (_strategies self)
  | Failed e st' =>
      exists (k : nat) (strategy : Strategy),
        nth_error (_strategies self) k = Some strategy
        /\ outcome (start strategy tk
                          (start_all tk (firstn k (_strategies self)) (world st)))
           = Raise e
        /\ world st' = start_all tk (firstn (S k) (_strategies self)) (world st)
        /\ calls st'
           = calls st ++ CallInitialize tk
                      :: map (CallStart tk) (firstn (S k) (_strategies self))
  | Timeout _ => False
  end.
Proof.
  pose proof (initialize_log self tk st) as Hlog.
  pose proof (start_phase tk (_strategies self)
                          (mkState (world st) (_stop_requested st)
                                   (_is_running st)
                                   (calls st ++ [CallInitialize tk])))
    as Hphase.
  change (for_each (_strategies self) _ _)
    with (initialize self tk st) in Hphase.
  destruct (initialize self tk st) as [[] st'|e st'|st']; [| |exact Hphase].
  - split; [exact Hphase|exact Hlog].
  - destruct Hphase as (k & s & Hk & Hraise & Hw & Hc).
    exists k, s. repeat split; try assumption.
    rewrite Hc. simpl calls. now rewrite <- app_assoc.
Qed.

Lemma initialize_stop self tk st :
  _stop_requested st = true ->
  _stop_requested (final (initialize self tk st)) = true.
Proof.
  intros H. unfold initialize, bind. simpl.
  apply (for_each_logged_stop (CallStart tk) (fun strategy => start strategy tk)).
  exact H.
Qed.

(** [initialize] does not look at the stop flag. *)
Lemma for_each_logged_ignores_stop {A} (mk : A -> Call)
      (f : A -> World -> Reply World unit) (xs : list A) :
  forall st st',
    same_but_stop st st' ->
    match for_each xs (fun x => logged (mk x) (f x)) st,
          for_each xs (fun x => logged (mk x) (f x)) st' with
    | Done _ a, Done _ b => same_but_stop a b
    | Failed e a, Failed e' b => e = e' /\ same_but_stop a b
    | _, _ => False
    end.
Proof.
  induction xs as [|x xs IH]; intros st st' Hsame; [exact Hsame|].
  rewrite !for_each_cons, !logged_eq.
  destruct Hsame as (Hw & Hr & Hc).
  assert (Hnext : same_but_stop (after_logged (mk x) (f x) st)
                                (after_logged (mk x) (f x) st')).
  { unfold same_but_stop, after_logged. simpl. rewrite Hw, Hr, Hc. auto. }
  rewrite <- Hw.
  destruct (outcome (f x (world st))) as [[]|e].
  - exact (IH _ _ Hnext).
  - split; [reflexivity|exact Hnext].
Qed.

Lemma initialize_ignores_stop self tk st st' :
  same_but_stop st st' ->
  match initialize self tk st, initialize self tk st' with
  | Done _ a, Done _ b => same_but_stop a b
  | Failed e a, Failed e' b => e = e' /\ same_but_stop a b
  | _, _ => False
  end.
Proof.
  intros (Hw & Hr & Hc). unfold initialize, bind. simpl.
  apply (for_each_logged_ignores_stop
           (CallStart tk) (fun strategy => start strategy tk)).
  unfold same_but_stop. simpl. rewrite Hw, Hr, Hc. auto.
Qed.

(** [_run], step by step. *)
Lemma run_eq self fuel st :
  _run self fuel st
  = match call (__next__ (_clock self) (__iter__ (_clock self)))
               (final (set_is_running true st)) with
    | Done first st1 =>
        match initialize self (fst first) st1 with
        | Done _ st2 =>
            match tick_loop self fuel (snd first) st2 with
            | Done _ st3 => set_is_running false st3
            | Failed e st3 => Failed e st3
            | Timeout st3 => Timeout st3
            end
        | Failed e st2 => Failed e st2
        | Timeout st2 => Timeout st2
        end
    | Failed e st1 => Failed e st1
    | Timeout st1 => Timeout st1
    end.
Proof.
  unfold _run, bind. simpl.
  destruct (call _ _); reflexivity.
Qed.

End TickLoop.

(** ** _run *)

Section Run.

Context {World Tick : Type}.

Local Abbreviation Controller := (@Controller World Tick).
Local Abbreviation State := (@State World Tick).
Local Abbreviation Call := (@Call World Tick).
Local Abbreviation Strategy := (Strategy World Tick).

Implicit Types (st : State) (self : Controller) (tk : Tick).

(** The state in which [initialize] is entered, when the first pull from
    the clock answers [r]. *)
Lemma first_pull self st (r : Reply World (Tick * cursor (_clock self))) :
  __next__ (_clock self) (__iter__ (_clock self)) (world st) = r ->
  call (__next__ (_clock self) (__iter__ (_clock self)))
       (final (set_is_running true st))
  = let st1 := mkState (world_after r)
                       (_stop_requested st || stop_called r) true (calls st) in
    match outcome r with
    | Return first => Done first st1
    | Raise e => Failed e st1
    end.
Proof. intros <-. reflexivity. Qed.

(** A run whose clock has no first tick: [next(clock)] raises and nothing
    else happens. *)
Lemma run_without_first_tick self fuel st e :
  outcome (__next__ (_clock self) (__iter__ (_clock self)) (world st)) = Raise e ->
  exists st', _run self fuel st = Failed e st' /\ calls st' = calls st.
Proof.
  intros H. rewrite run_eq, (first_pull self st _ eq_refl). cbv zeta.
  rewrite H. eexists. split; reflexivity.
Qed.

(** C5, amended. In a run whose clock yields a first tick, [initialize] is
    called exactly once, with that tick, before any call of the tick phase.
    It runs the [start] hooks of the strategies on the world the first pull
    left, in the order of the collection: all of them, after which the run
    goes on with the tick loop, unless a [start] hook raises, in which case
    the hooks after it are not run and the run ends with that exception. *)
Theorem initialize_once_with_first_tick
        self fuel st tk0 (g1 : cursor (_clock self)) (w0 : World)
        (stopped : bool) :
  __next__ (_clock self) (__iter__ (_clock self)) (world st)
  = mkReply (Return (tk0, g1)) w0 stopped ->
  exists (k : nat) (rest : list Call),
    calls (final (_run self fuel st))
    = calls st ++ CallInitialize tk0
               :: map (CallStart tk0) (firstn k (_strategies self)) ++ rest
    /\ Forall in_tick_phase rest
    /\ initialized (calls (final (_run self fuel st)))
       = initialized (calls st) ++ [tk0]
    /\ ((k = length (_strategies self)
         /\ exists st2 : State,
             world st2 = start_all tk0 (_strategies self) w0
             /\ calls st2
                = calls st ++ CallInitialize tk0
                           :: map (CallStart tk0) (_strategies self)
             /\ _run self fuel st
                = bind (tick_loop self fuel g1)
                       (fun _ => set_is_running false) st2)
        \/ (rest = []
            /\ exists (e : exn) (strategy : Strategy),
                nth_error (_strategies self) (pred k) = Some strategy
                /\ outcome (start strategy tk0
                                  (start_all tk0
                                             (firstn (pred k) (_strategies self))
                                             w0))
                   = Raise e
                /\ exists st',
                    _run self fuel st = Failed e st'
                    /\ world st'
                       = start_all tk0 (firstn k (_strategies self)) w0)).
Proof.
  intros Hfirst.
  assert (Hinit : forall k rest,
             Forall in_tick_phase rest ->
             initialized (calls st ++ CallInitialize tk0
                                :: map (CallStart tk0)
                                       (firstn k (_strategies self)) ++ rest)
             = initialized (calls st) ++ [tk0]).
  { intros k rest Hrest.
    change (CallInitialize tk0 :: ?l) with ([CallInitialize tk0] ++ l).
    rewrite !initialized_app, initialized_start.
    rewrite (initialized_tick_phase rest Hrest). reflexivity. }
  rewrite run_eq, (first_pull self st _ eq_refl). cbv zeta.
  rewrite Hfirst. cbn [outcome world_after stop_called fst snd].
  set (st1 := mkState w0 _ true (calls st)).
  pose proof (initialize_phase self tk0 st1) as Hphase.
  change (world st1) with w0 in Hphase.
  change (calls st1) with (calls st) in Hphase.
  destruct (initialize self tk0 st1) as [[] st2|e st2|st2]; [| |contradiction].
  - destruct Hphase as [Hw Hlog].
    destruct (tick_loop_phase self fuel g1 st2) as (cs & Hcs & Hloop).
    exists (length (_strategies self)), cs. rewrite firstn_all.
    assert (Hc : calls (final
                          match tick_loop self fuel g1 st2 with
                          | Done _ st3 => set_is_running false st3
                          | Failed e st3 => Failed e st3
                          | Timeout st3 => Timeout st3
                          end)
                 = calls st ++ CallInitialize tk0
                            :: map (CallStart tk0) (_strategies self) ++ cs).
    { replace (calls (final
                 match tick_loop self fuel g1 st2 with
                 | Done _ st3 => set_is_running false st3
                 | Failed e st3 => Failed e st3
                 | Timeout st3 => Timeout st3
                 end))
        with (calls (final (tick_loop self fuel g1 st2)))
        by (destruct (tick_loop self fuel g1 st2); reflexivity).
      rewrite Hcs, Hlog. now rewrite <- app_assoc. }
    split; [exact Hc|]. split; [exact Hloop|]. split.
    + rewrite Hc. rewrite <- (firstn_all (_strategies self)) at 1.
      now apply Hinit.
    + left. split; [reflexivity|].
      exists st2. split; [exact Hw|]. split; [exact Hlog|]. reflexivity.
  - destruct Hphase as (k & s & Hk & Hraise & Hw & Hc).
    exists (S k), []. simpl final. rewrite app_nil_r.
    split; [exact Hc|]. split; [constructor|]. split.
    + rewrite Hc. rewrite <- (app_nil_r (map _ _)). apply Hinit. constructor.
    + right. split; [reflexivity|].
      exists e, s. split; [exact Hk|]. split; [exact Hraise|].
      exists st2. split; [reflexivity|exact Hw].
Qed.

(** C6. Once the clock has yielded a tick, the flag is looked at before
    [execute_tick] and again after it. If it is up before, the loop is left
    and the tick is not executed. If it is down before and up when
    [execute_tick] returns, the loop is left then, with this tick the last
    one executed. Whenever the loop is left, [_run] ends with [_is_running]
    false. Consequently a loop whose flag is up at its head executes nothing
    more, whatever the clock still holds. *)
Theorem stop_checked_before_and_after
        self fuel (g g' : cursor (_clock self)) st st1 tk :
  call (__next__ (_clock self) g) st = Done (tk, g') st1 ->
  (_stop_requested st1 = true ->
   tick_loop self (S fuel) g st = Done tt st1
   /\ executed (calls st1) = executed (calls st))
  /\ (_stop_requested st1 = false ->
      forall st2,
        execute_tick self tk st1 = Done tt st2 ->
        _stop_requested st2 = true ->
        tick_loop self (S fuel) g st = Done tt st2
        /\ executed (calls st2) = executed (calls st) ++ [tk])
  /\ (forall fuel0 st0 first stA stB stC,
         call (__next__ (_clock self) (__iter__ (_clock self)))
              (final (set_is_running true st0)) = Done first stA ->
         initialize self (fst first) stA = Done tt stB ->
         tick_loop self fuel0 (snd first) stB = Done tt stC ->
         _run self fuel0 st0
         = Done tt (mkState (world stC) (_stop_requested stC) false (calls stC)))
  /\ (forall (h : cursor (_clock self)) stS,
         _stop_requested stS = true ->
         executed (calls (final (tick_loop self (S fuel) h stS)))
         = executed (calls stS)
         /\ forall st', tick_loop self (S fuel) h stS <> Timeout st').
Proof.
  intros Hnext.
  pose proof (call_calls (__next__ (_clock self) g) st) as Hcalls.
  rewrite Hnext in Hcalls. simpl in Hcalls.
  split; [|split; [|split]].
  - intros Hup. split; [|now rewrite Hcalls].
    rewrite tick_loop_eq, Hnext, Hup. reflexivity.
  - intros Hdown st2 Hexec Hup. split.
    + rewrite tick_loop_eq, Hnext, Hdown, Hexec, Hup. reflexivity.
    + pose proof (execute_tick_executed self tk st1) as He.
      rewrite Hexec in He. simpl in He. now rewrite He, Hcalls.
  - intros fuel0 st0 first stA stB stC HA HB HC.
    rewrite run_eq, HA, HB, HC. reflexivity.
  - intros h stS Hup.
    destruct (tick_loop_stopped self fuel h stS Hup) as [Hc Hto].
    split; [now rewrite Hc|exact Hto].
Qed.

Lemma run_tail_calls (r : @Res World Tick unit) :
  calls (final match r with
               | Done _ st3 => set_is_running false st3
               | Failed e st3 => Failed e st3
               | Timeout st3 => Timeout st3
               end)
  = calls (final r).
Proof. destruct r; reflexivity. Qed.

(** C10, amended. The flag is not looked at before initialization. A run
    that begins with the flag up, and whose clock yields a first tick, still
    calls [initialize] with that tick, which runs the [start] hooks on the
    world in the order of the collection. If the hooks all return, the run
    then pulls once more from the clock and ends, with [_is_running] false
    and without any [execute_tick]; it fails only if a [start] hook raises,
    the hooks after that one being left out, or if that pull does. Compared
    with the run from the same state with the flag down, the only calls
    missing are calls of the tick phase. *)
Theorem stop_cannot_prevent_initialize
        self fuel st tk0 (g1 : cursor (_clock self)) (w0 : World)
        (stopped : bool) :
  _stop_requested st = true ->
  __next__ (_clock self) (__iter__ (_clock self)) (world st)
  = mkReply (Return (tk0, g1)) w0 stopped ->
  match _run self (S fuel) st with
  | Done _ st' =>
      calls st'
      = calls st ++ CallInitialize tk0 :: map (CallStart tk0) (_strategies self)
      /\ _is_running st' = false
      /\ world st'
         = world_after (__next__ (_clock self) g1
                                 (start_all tk0 (_strategies self) w0))
  | Failed e st' =>
      (exists (k : nat) (strategy : Strategy),
          nth_error (_strategies self) k = Some strategy
          /\ outcome (start strategy tk0
                            (start_all tk0 (firstn k (_strategies self)) w0))
             = Raise e
          /\ calls st'
             = calls st ++ CallInitialize tk0
                        :: map (CallStart tk0) (firstn (S k) (_strategies self))
          /\ world st' = start_all tk0 (firstn (S k) (_strategies self)) w0)
      \/ (calls st'
          = calls st ++ CallInitialize tk0
                     :: map (CallStart tk0) (_strategies self)
          /\ outcome (__next__ (_clock self) g1
                               (start_all tk0 (_strategies self) w0))
             = Raise e
          /\ world st'
             = world_after (__next__ (_clock self) g1
                                     (start_all tk0 (_strategies self) w0)))
  | Timeout _ => False
  end
  /\ (forall fuel' : nat,
        exists rest : list Call,
          calls (final (_run self fuel'
                             (mkState (world st) false (_is_running st)
                                      (calls st))))
          = calls (final (_run self (S fuel) st)) ++ rest
          /\ Forall in_tick_phase rest).
Proof.
  intros Hstop Hfirst. split.
  - rewrite run_eq, (first_pull self st _ eq_refl). cbv zeta.
    rewrite Hfirst. cbn [outcome world_after stop_called fst snd].
    set (st1 := mkState w0 _ true (calls st)).
    assert (Hstop1 : _stop_requested st1 = true) by (simpl; now rewrite Hstop).
    pose proof (initialize_phase self tk0 st1) as Hphase.
    change (world st1) with w0 in Hphase.
    change (calls st1) with (calls st) in Hphase.
    pose proof (initialize_stop self tk0 st1 Hstop1) as Hstop2.
    destruct (initialize self tk0 st1) as [[] st2|e st2|st2]; [| |contradiction].
    + simpl in Hstop2. destruct Hphase as [Hw Hlog].
      rewrite tick_loop_eq.
      pose proof (call_calls (__next__ (_clock self) g1) st2) as Hcalls.
      pose proof (call_stop (__next__ (_clock self) g1) st2 Hstop2) as Hflag.
      rewrite call_eq in *. cbv zeta in *. rewrite <- Hw.
      destruct (outcome (__next__ (_clock self) g1 (world st2)))
        as [[tk g2]|e] eqn:Hpull; simpl in Hcalls, Hflag.
      * rewrite Hflag. simpl. repeat split. exact Hlog.
      * destruct e; simpl;
          try (repeat split; exact Hlog);
          (right; repeat split; exact Hlog).
    + left. destruct Hphase as (k & s & Hk & Hraise & Hw & Hc).
      exists k, s. repeat split; assumption.
  - intros fuel'.
    set (down := mkState (world st) false (_is_running st) (calls st)).
    rewrite !run_eq.
    rewrite (first_pull self st _ eq_refl), (first_pull self down _ eq_refl).
    cbv zeta. simpl world. rewrite Hfirst.
    cbn [outcome world_after stop_called fst snd].
    set (up1 := mkState w0 (_stop_requested st || _) true (calls st)).
    set (down1 := mkState w0 (_stop_requested down || _) true (calls down)).
    assert (Hup1 : _stop_requested up1 = true) by (simpl; now rewrite Hstop).
    assert (Hsame : same_but_stop up1 down1) by (repeat split).
    pose proof (initialize_ignores_stop self tk0 up1 down1 Hsame) as Hinit.
    pose proof (initialize_stop self tk0 up1 Hup1) as Hup2.
    destruct (initialize self tk0 up1) as [[] up2|e up2|up2];
      destruct (initialize self tk0 down1) as [[] down2|e' down2|down2];
      try contradiction.
    + destruct Hinit as (_ & _ & Hc). simpl in Hup2.
      rewrite !run_tail_calls.
      destruct (tick_loop_stopped self fuel g1 up2 Hup2) as [Hstay _].
      destruct (tick_loop_phase self fuel' g1 down2) as (cs & Hcs & Hphase).
      exists cs. split; [|exact Hphase]. now rewrite Hcs, Hstay, Hc.
    + destruct Hinit as (_ & _ & _ & Hc).
      exists []. simpl. split; [|constructor]. now rewrite app_nil_r, Hc.
Qed.

End Run.

(** Running the loop of the controllers of [Demo]. *)

Lemma initialize_once_with_first_tick_witness :
  exists (k : nat) (rest : list (@Call Demo.Journal Datetime.datetime)),
    calls (final (_run (Demo.simulated (SimulatedClock.make 0 3000000 1000000))
                       5 Demo.idle_at))
    = calls Demo.idle_at
      ++ CallInitialize 0
         :: map (CallStart 0)
                (firstn k (_strategies
                             (Demo.simulated
                                (SimulatedClock.make 0 3000000 1000000))))
         ++ rest
    /\ Forall in_tick_phase rest
    /\ initialized
         (calls (final (_run (Demo.simulated
                                (SimulatedClock.make 0 3000000 1000000))
                             5 Demo.idle_at)))
       = initialized (calls Demo.idle_at) ++ [0]
    /\ ((k = length (_strategies
                       (Demo.simulated (SimulatedClock.make 0 3000000 1000000)))
         /\ exists st2 : @State Demo.Journal Datetime.datetime,
             world st2
             = start_all 0
                         (_strategies
                            (Demo.simulated
                               (SimulatedClock.make 0 3000000 1000000)))
                         []
             /\ calls st2
                = calls Demo.idle_at
                  ++ CallInitialize 0
                     :: map (CallStart 0)
                            (_strategies
                               (Demo.simulated
                                  (SimulatedClock.make 0 3000000 1000000)))
             /\ _run (Demo.simulated (SimulatedClock.make 0 3000000 1000000))
                     5 Demo.idle_at
                = bind (tick_loop
                          (Demo.simulated
                             (SimulatedClock.make 0 3000000 1000000))
                          5 (SimulatedClock.Suspended 0))
                       (fun _ => set_is_running false) st2)
        \/ (rest = []
            /\ exists (e : exn) (strategy : Strategy Demo.Journal Datetime.datetime),
                nth_error (_strategies
                             (Demo.simulated
                                (SimulatedClock.make 0 3000000 1000000)))
                          (pred k) = Some strategy
                /\ outcome (start strategy 0
                                  (start_all 0
                                     (firstn (pred k)
                                        (_strategies
                                           (Demo.simulated
                                              (SimulatedClock.make
                                                 0 3000000 1000000))))
                                     []))
                   = Raise e
                /\ exists st',
                    _run (Demo.simulated (SimulatedClock.make 0 3000000 1000000))
                         5 Demo.idle_at
                    = Failed e st'
                    /\ world st'
                       = start_all 0
                           (firstn k
                              (_strategies
                                 (Demo.simulated
                                    (SimulatedClock.make 0 3000000 1000000))))
                           [])).
Proof.
  apply (initialize_once_with_first_tick
           (Demo.simulated (SimulatedClock.make 0 3000000 1000000))
           5 Demo.idle_at 0 (SimulatedClock.Suspended 0) [] false).
  reflexivity.
Defined.

(** The same run, evaluated: [initialize] once with the first tick, both
    strategies started, then the two remaining ticks executed. *)
Example run_simulated_three_ticks :
  _run (Demo.simulated (SimulatedClock.make 0 3000000 1000000)) 5 Demo.idle_at
  = Done tt
      (mkState [10; 20]%nat false false
               [CallInitialize 0;
                CallStart 0 (Demo.marking 10);
                CallStart 0 (Demo.marking 20);
                CallExecuteTick 1000000;
                CallTick 1000000 (Demo.marking 10);
                CallTick 1000000 (Demo.marking 20);
                CallExecuteTick 2000000;
                CallTick 2000000 (Demo.marking 10);
                CallTick 2000000 (Demo.marking 20)]).
Proof. vm_compute. reflexivity. Qed.

(** C5, as the claim has it, fails: a simulated clock with [stop <= start]
    is a legal clock that yields nothing; in a run over it [next(clock)]
    raises [StopIteration] and [initialize] is never called, whatever the
    fuel. *)
Lemma run_over_empty_clock_never_initializes :
  ~ (exists (fuel : nat) (tk : Datetime.datetime),
        initialized
          (calls (final (_run (Demo.simulated (SimulatedClock.make 0 0 1000000))
                              fuel Demo.idle_at)))
        = [tk]).
Proof.
  intros (fuel & tk & H).
  destruct (run_without_first_tick
              (Demo.simulated (SimulatedClock.make 0 0 1000000))
              fuel Demo.idle_at StopIteration eq_refl) as (st' & Hrun & Hc).
  rewrite Hrun in H. simpl in H. rewrite Hc in H. discriminate H.
Qed.

Lemma stop_checked_before_and_after_witness :
  tick_loop Demo.stopped_midway 1 tt Demo.one_applied
  = Done tt (final (execute_tick Demo.stopped_midway tt Demo.one_applied))
  /\ executed (calls (final (execute_tick Demo.stopped_midway tt Demo.one_applied)))
     = executed (calls Demo.one_applied) ++ [tt].
Proof.
  destruct (stop_checked_before_and_after
              Demo.stopped_midway 0 tt tt Demo.one_applied Demo.one_applied tt
              eq_refl) as (_ & Hafter & _).
  apply Hafter; reflexivity.
Defined.

(** A clock that never ends, and [stop()] called while the second tick is
    being executed: that tick is completed, the loop is left and [_run]
    returns with [_is_running] false. *)
Example run_stopped_midway :
  _run Demo.stopped_midway 10 Demo.idle
  = Done tt
      (mkState [1; 1]%nat true false
               [CallInitialize tt;
                CallStart tt Demo.interrupted;
                CallExecuteTick tt;
                CallTick tt Demo.interrupted;
                CallApply (Demo.push 1);
                CallExecuteTick tt;
                CallTick tt Demo.interrupted;
                CallApply (Demo.push 1)]).
Proof. reflexivity. Qed.

(** The same clock without any [stop()]: the loop goes on for as long as
    there is fuel. *)
Example run_never_stopped :
  exists st', _run Demo.ordered 10 Demo.idle = Timeout st'
              /\ length (executed (calls st')) = 10%nat.
Proof. eexists. split; vm_compute; reflexivity. Qed.

Lemma stop_cannot_prevent_initialize_witness :
  (calls (final (_run Demo.starting 1 Demo.stop_pending))
   = calls Demo.stop_pending
     ++ CallInitialize tt :: map (CallStart tt) (_strategies Demo.starting)
   /\ _is_running (final (_run Demo.starting 1 Demo.stop_pending)) = false
   /\ world (final (_run Demo.starting 1 Demo.stop_pending))
      = world_after (__next__ (_clock Demo.starting) tt
                              (start_all tt (_strategies Demo.starting) [])))
  /\ (forall fuel' : nat,
        exists rest : list (@Call Demo.Journal unit),
          calls (final (_run Demo.starting fuel' Demo.idle))
          = calls (final (_run Demo.starting 1 Demo.stop_pending)) ++ rest
          /\ Forall in_tick_phase rest).
Proof.
  destruct (stop_cannot_prevent_initialize
              Demo.starting 0 Demo.stop_pending tt tt [] false
              eq_refl eq_refl)
    as [Hrun Hcompare].
  split; [exact Hrun|exact Hcompare].
Defined.

(** That run, evaluated: both [start] hooks have left their mark, no tick
    was executed. *)
Example run_with_stop_pending :
  _run Demo.starting 1 Demo.stop_pending
  = Done tt
      (mkState [10; 20]%nat true false
               [CallInitialize tt;
                CallStart tt (Demo.marking 10);
                CallStart tt (Demo.marking 20)]).
Proof. reflexivity. Qed.

(** C10, as the claim has it, fails. With the flag up as with the flag
    down, a run over a clock that yields nothing ends at [next(clock)]:
    [initialize] is not called and no [start] hook is invoked. And a [start]
    hook that raises ends the run there: the hook of the strategy after it
    is never invoked. *)
Lemma stopped_run_can_miss_start_hooks :
  (forall fuel : nat,
      _run (Demo.simulated (SimulatedClock.make 0 0 1000000)) fuel
           (stop Demo.idle_at)
      = Failed StopIteration (mkState [] true true []))
  /\ _run Trial.with_unstartable 5 Demo.stop_pending
     = Failed (UserError 3)
              (mkState [10; 0]%nat true true
                       [CallInitialize tt;
                        CallStart tt (Demo.marking 10);
                        CallStart tt Trial.unstartable])
  /\ nth_error (_strategies Trial.with_unstartable) 2 = Some (Demo.marking 20).
Proof.
  split; [|split].
  - intros fuel. reflexivity.
  - vm_compute. reflexivity.
  - reflexivity.
Qed.

(** ** The end-to-end scenario *)

Section EndToEnd.
Import Datetime.

Lemma next_created (self : SimulatedClock.t) :
  SimulatedClock.start self < SimulatedClock.stop self ->
  SimulatedClock.next self (SimulatedClock.__iter__ self)
  = Return (SimulatedClock.start self,
            SimulatedClock.Suspended (SimulatedClock.start self)).
Proof. intros H. simpl. now apply loop_head_below. Qed.

Lemma next_suspended_more (self : SimulatedClock.t) (current : Z) :
  0 <= current + SimulatedClock.interval self ->
  current + SimulatedClock.interval self < SimulatedClock.stop self ->
  SimulatedClock.stop self <= MAX ->
  SimulatedClock.next self (SimulatedClock.Suspended current)
  = Return (current + SimulatedClock.interval self,
            SimulatedClock.Suspended (current + SimulatedClock.interval self)).
Proof.
  intros H0 H1 H2. simpl. rewrite add_in_range by lia.
  now apply loop_head_below.
Qed.

Lemma next_suspended_last (self : SimulatedClock.t) (current : Z) :
  0 <= current + SimulatedClock.interval self <= MAX ->
  SimulatedClock.stop self <= current + SimulatedClock.interval self ->
  SimulatedClock.next self (SimulatedClock.Suspended current)
  = Raise StopIteration.
Proof.
  intros H0 H1. simpl. rewrite add_in_range by lia.
  now apply loop_head_reached.
Qed.

(** The run of the scenario, written out: the first tick goes to
    [initialize], the two that follow are executed, the fourth pull finds
    the clock exhausted. *)
Lemma scenario_run (T0 : Z) (fuel : nat) :
  is_datetime T0 ->
  is_datetime (T0 + 3000000) ->
  _run (Scenario.controller (SimulatedClock.make T0 (T0 + 3000000) 1000000))
       (3 + fuel) (fresh [])
  = Done tt
      (mkState [T0 + 1000000; T0 + 2000000] false false
               [CallInitialize T0;
                CallStart T0 Scenario.recorder;
                CallExecuteTick (T0 + 1000000);
                CallTick (T0 + 1000000) Scenario.recorder;
                CallApply (Scenario.record_tick (T0 + 1000000));
                CallExecuteTick (T0 + 2000000);
                CallTick (T0 + 2000000) Scenario.recorder;
                CallApply (Scenario.record_tick (T0 + 2000000))]).
Proof.
  intros [H0 H0'] [H3 H3'].
  set (clk := SimulatedClock.make T0 (T0 + 3000000) 1000000).
  assert (N0 := next_created clk ltac:(simpl; lia)).
  assert (N1 := next_suspended_more clk T0
                  ltac:(simpl; lia) ltac:(simpl; lia) ltac:(simpl; lia)).
  assert (N2 := next_suspended_more clk (T0 + 1000000)
                  ltac:(simpl; lia) ltac:(simpl; lia) ltac:(simpl; lia)).
  assert (N3 := next_suspended_last clk (T0 + 1000000 + 1000000)
                  ltac:(simpl; lia) ltac:(simpl; lia)).
  simpl SimulatedClock.start in *. simpl SimulatedClock.interval in *.
  replace (T0 + 2000000) with (T0 + 1000000 + 1000000) by lia.
  rewrite run_eq.
  unfold call at 1. cbn -[SimulatedClock.next Z.add tick_loop initialize].
  fold clk. rewrite N0.
  cbn -[SimulatedClock.next Z.add tick_loop].
  change (3 + fuel)%nat with (S (S (S fuel))).
  rewrite tick_loop_eq.
  unfold call at 1. cbn -[SimulatedClock.next Z.add tick_loop execute_tick].
  fold clk. rewrite N1.
  cbn -[SimulatedClock.next Z.add tick_loop].
  rewrite tick_loop_eq.
  unfold call at 1. cbn -[SimulatedClock.next Z.add tick_loop execute_tick].
  fold clk. rewrite N2.
  cbn -[SimulatedClock.next Z.add tick_loop].
  rewrite tick_loop_eq.
  unfold call at 1. cbn -[SimulatedClock.next Z.add tick_loop execute_tick].
  fold clk. rewrite N3.
  reflexivity.
Qed.

(** C1, as the claim has it, fails: with [T0] one second after
    [datetime.min] the run ends with two operations observed, carrying
    [T0+1] and [T0+2]; no amount of fuel makes the broker observe [T0]. *)
Lemma scenario_observes_two_operations :
  _run (Scenario.controller (SimulatedClock.make 1000000 4000000 1000000))
       3 (fresh [])
  = Done tt
      (mkState [2000000; 3000000] false false
               [CallInitialize 1000000;
                CallStart 1000000 Scenario.recorder;
                CallExecuteTick 2000000;
                CallTick 2000000 Scenario.recorder;
                CallApply (Scenario.record_tick 2000000);
                CallExecuteTick 3000000;
                CallTick 3000000 Scenario.recorder;
                CallApply (Scenario.record_tick 3000000)])
  /\ ~ (exists (fuel : nat) (st : @State Scenario.Broker datetime),
           _run (Scenario.controller
                   (SimulatedClock.make 1000000 4000000 1000000))
                fuel (fresh [])
           = Done tt st
           /\ world st = [1000000; 2000000; 3000000]).
Proof.
  assert (Hrun := scenario_run 1000000).
  assert (Ha : is_datetime 1000000)
    by (unfold is_datetime; rewrite MAX_value; lia).
  assert (Hb : is_datetime (1000000 + 3000000))
    by (unfold is_datetime; rewrite MAX_value; lia).
  split.
  - exact (Hrun 0%nat Ha Hb).
  - intros (fuel & st & H & Hw).
    destruct fuel as [|[|[|fuel]]];
      try (vm_compute in H; discriminate H).
    change (S (S (S fuel))) with (3 + fuel)%nat in H.
    change 4000000 with (1000000 + 3000000) in H.
    rewrite (Hrun fuel Ha Hb) in H.
    inversion H; subst st. discriminate Hw.
Qed.

(** C1, amended. In the scenario the first tick [T0] is consumed by
    [initialize]; the broker observes exactly two operations, carrying
    [T0+1] and [T0+2], in that order; the run then ends by itself, the clock
    being exhausted, with [_is_running] false and no stop requested. *)
Theorem scenario_end_to_end (T0 : Z) (clock : SimulatedClock.t) (fuel : nat) :
  is_datetime T0 ->
  is_datetime (T0 + 3 * US_PER_SECOND) ->
  SimulatedClock.__init__ T0 (T0 + 3 * US_PER_SECOND) 1 = Return clock ->
  (3 <= fuel)%nat ->
  exists st : @State Scenario.Broker datetime,
    _run (Scenario.controller clock) fuel (fresh []) = Done tt st
    /\ world st = [T0 + 1 * US_PER_SECOND; T0 + 2 * US_PER_SECOND]
    /\ applied (calls st)
       = [Scenario.record_tick (T0 + 1 * US_PER_SECOND);
          Scenario.record_tick (T0 + 2 * US_PER_SECOND)]
    /\ initialized (calls st) = [T0]
    /\ executed (calls st)
       = [T0 + 1 * US_PER_SECOND; T0 + 2 * US_PER_SECOND]
    /\ _is_running st = false
    /\ _stop_requested st = false.
Proof.
  intros Ha Hb Hinit Hfuel.
  apply init_fields in Hinit. subst clock.
  change (3 * US_PER_SECOND) with 3000000 in *.
  change (1 * US_PER_SECOND) with 1000000.
  change (2 * US_PER_SECOND) with 2000000.
  replace fuel with (3 + (fuel - 3))%nat by lia.
  rewrite (scenario_run T0 (fuel - 3) Ha Hb).
  eexists. split; [reflexivity|]. repeat split.
Qed.

Lemma scenario_end_to_end_witness :
  exists st : @State Scenario.Broker datetime,
    _run (Scenario.controller (SimulatedClock.make 1000000 4000000 1000000))
         5 (fresh [])
    = Done tt st
    /\ world st = [1000000 + 1 * US_PER_SECOND; 1000000 + 2 * US_PER_SECOND]
    /\ applied (calls st)
       = [Scenario.record_tick (1000000 + 1 * US_PER_SECOND);
          Scenario.record_tick (1000000 + 2 * US_PER_SECOND)]
    /\ initialized (calls st) = [1000000]
    /\ executed (calls st)
       = [1000000 + 1 * US_PER_SECOND; 1000000 + 2 * US_PER_SECOND]
    /\ _is_running st = false
    /\ _stop_requested st = false.
Proof.
  apply (scenario_end_to_end 1000000).
  - unfold is_datetime. rewrite MAX_value. lia.
  - unfold is_datetime. rewrite MAX_value. unfold US_PER_SECOND. lia.
  - reflexivity.
  - lia.
Defined.

End EndToEnd.

(** * More properties of the module *)

(** ** How a run ends *)

Section RunEnds.

Context {World Tick : Type}.

Local Abbreviation Controller := (@Controller World Tick).
Local Abbreviation State := (@State World Tick).
Local Abbreviation Call := (@Call World Tick).
Local Abbreviation Strategy := (Strategy World Tick).

Implicit Types (st : State) (self : Controller) (tk : Tick).

Lemma call_running {A} (f : World -> Reply World A) st :
  _is_running (final (call f st)) = _is_running st.
Proof. rewrite call_eq. cbv zeta. destruct (outcome _); reflexivity. Qed.

Lemma comprehension_logged_running {A B} (mk : A -> Call)
      (f : A -> World -> Reply World B) (xs : list A) :
  forall st,
    _is_running (final (comprehension (fun x => logged (mk x) (f x)) xs st))
    = _is_running st.
Proof.
  induction xs as [|x xs IH]; intros st; [reflexivity|].
  rewrite comprehension_cons, logged_eq.
  destruct (outcome (f x (world st))) as [y|e]; [|reflexivity].
  specialize (IH (after_logged (mk x) (f x) st)).
  destruct (comprehension _ xs _); exact IH.
Qed.

Lemma execute_tick_running self tk st :
  _is_running (final (execute_tick self tk st)) = _is_running st.
Proof.
  rewrite execute_tick_eq. unfold ask.
  pose proof (comprehension_logged_running
                (CallTick tk) (fun strategy => tick strategy tk)
                (_strategies self)
                (final (record (CallExecuteTick tk) st))) as Hask.
  cbv beta in Hask.
  destruct (comprehension _ _ _) as [rs st1|e st1|st1]; try exact Hask.
  simpl in Hask. rewrite <- Hask.
  apply (for_each_logged_running
           (@CallApply World Tick) (fun operation => operation)).
Qed.

Lemma initialize_running self tk st :
  _is_running (final (initialize self tk st)) = _is_running st.
Proof.
  unfold initialize, bind. simpl.
  exact (for_each_logged_running
           (CallStart tk) (fun strategy => start strategy tk)
           (_strategies self)
           (mkState (world st) (_stop_requested st) (_is_running st)
                    (calls st ++ [CallInitialize tk]))).
Qed.

Lemma tick_loop_running self fuel :
  forall (g : cursor (_clock self)) st,
    _is_running (final (tick_loop self fuel g st)) = _is_running st.
Proof.
  induction fuel as [|fuel IH]; intros g st; [reflexivity|].
  rewrite tick_loop_eq.
  pose proof (call_running (__next__ (_clock self) g) st) as Hnext.
  destruct (call _ st) as [[tk g'] st1|e st1|st1]; simpl in Hnext.
  - destruct (_stop_requested st1); [exact Hnext|].
    pose proof (execute_tick_running self tk st1) as Hexec.
    destruct (execute_tick self tk st1) as [[] st2|e st2|st2];
      simpl in Hexec; try (simpl; congruence).
    destruct (_stop_requested st2); [simpl; congruence|].
    rewrite IH. congruence.
  - destruct e; exact Hnext.
  - exact Hnext.
Qed.

Lemma executed_initialize tk (cs : list Call) (xs : list Strategy) :
  executed (cs ++ CallInitialize tk :: map (CallStart tk) xs) = executed cs.
Proof.
  change (CallInitialize tk :: ?l) with ([CallInitialize tk] ++ l).
  rewrite !executed_app, executed_start. simpl. now rewrite app_nil_r.
Qed.

Lemma initialized_initialize tk (cs : list Call) (xs : list Strategy) :
  initialized (cs ++ CallInitialize tk :: map (CallStart tk) xs)
  = initialized cs ++ [tk].
Proof.
  change (CallInitialize tk :: ?l) with ([CallInitialize tk] ++ l).
  rewrite !initialized_app, initialized_start. reflexivity.
Qed.

(** X1. [_is_running] tells a run that returned from one that did not:
    it is false after [_run] has returned and still true after [_run] was
    ended by an exception, be it of the clock, of a [start] hook, of a
    strategy or of an operation (and true while the loop goes on). *)
Theorem is_running_after_run self fuel st :
  match _run self fuel st with
  | Done _ st' => _is_running st' = false
  | Failed _ st' => _is_running st' = true
  | Timeout st' => _is_running st' = true
  end.
Proof.
  rewrite run_eq.
  pose proof (call_running
                (__next__ (_clock self) (__iter__ (_clock self)))
                (final (set_is_running true st))) as Hfirst.
  destruct (call _ _) as [first st1|e st1|st1]; simpl in Hfirst;
    try exact Hfirst.
  pose proof (initialize_running self (fst first) st1) as Hinit.
  destruct (initialize _ _ _) as [[] st2|e st2|st2]; simpl in Hinit;
    try congruence.
  pose proof (tick_loop_running self fuel (snd first) st2) as Hloop.
  destruct (tick_loop _ _ _ _) as [[] st3|e st3|st3]; simpl in Hloop;
    try congruence.
  reflexivity.
Qed.

End RunEnds.

(** ** Operations that raise *)

Section ApplyPhase.

Context {World Tick : Type}.

Local Abbreviation Controller := (@Controller World Tick).
Local Abbreviation State := (@State World Tick).

Implicit Types (st : State) (self : Controller) (tk : Tick).

(** X2. Once the strategies have all answered, the operations are applied
    to the world one after the other, in the order of the chained results.
    If they all return, the world has gone through all of them. If one
    raises, [execute_tick] ends with its exception: the operations before
    it stay applied, whatever it did itself before raising stays done, and
    none of the operations after it is applied. *)
Theorem operations_applied_until_one_raises
        self tk st (rs : list (TickResult World)) st1 :
  ask self tk (final (record (CallExecuteTick tk) st)) = Done rs st1 ->
  match execute_tick self tk st with
  | Done _ st' =>
      applied (calls st') = applied (calls st) ++ chain rs
      /\ world st' = apply_all (chain rs) (world st1)
  | Failed e st' =>
      exists (k : nat) (op : Operation World),
        nth_error (chain rs) k = Some op
        /\ outcome (op (apply_all (firstn k (chain rs)) (world st1))) = Raise e
        /\ applied (calls st') = applied (calls st) ++ firstn (S k) (chain rs)
        /\ world st' = apply_all (firstn (S k) (chain rs)) (world st1)
  | Timeout _ => False
  end.
Proof.
  intros Hask.
  pose proof (execute_tick_phases self tk st) as Hphases.
  rewrite Hask in Hphases. destruct Hphases as [Hc Heq].
  rewrite chain_filter_truthy in Heq. rewrite Heq. clear Heq.
  pose proof (apply_phase (chain rs) st1) as Happly.
  destruct (for_each _ _ _) as [[] st'|e st'|st']; [| |exact Happly].
  - destruct Happly as [Hw Hc']. split; [|exact Hw].
    rewrite Hc', Hc, applied_app, applied_asked, applied_apply. reflexivity.
  - destruct Happly as (k & op & Hk & Hraise & Hw & Hc').
    exists k, op. repeat split; try assumption.
    rewrite Hc', Hc, applied_app, applied_asked, applied_apply. reflexivity.
Qed.

End ApplyPhase.

Lemma operations_applied_until_one_raises_witness :
  exists (k : nat) (op : Operation Demo.Journal),
    nth_error [Demo.push 1; Trial.refusing; Demo.push 2] k = Some op
    /\ outcome (op (apply_all (firstn k [Demo.push 1; Trial.refusing; Demo.push 2])
                              []))
       = Raise (UserError 9)
    /\ applied (calls (final (execute_tick Trial.with_refusal tt Demo.idle)))
       = firstn (S k) [Demo.push 1; Trial.refusing; Demo.push 2]
    /\ world (final (execute_tick Trial.with_refusal tt Demo.idle))
       = apply_all (firstn (S k) [Demo.push 1; Trial.refusing; Demo.push 2]) [].
Proof.
  exact (operations_applied_until_one_raises
           Trial.with_refusal tt Demo.idle
           [Some [Demo.push 1; Trial.refusing; Demo.push 2]]
           (mkState [] false false
                    [CallExecuteTick tt;
                     CallTick tt (Demo.constant
                                    (Some [Demo.push 1; Trial.refusing;
                                           Demo.push 2]))])
           eq_refl).
Defined.

(** The tick of the previous lemma, run: the first operation and the mark
    of the second are in the journal, the third operation is not. *)
Example refusal_stops_the_tick :
  execute_tick Trial.with_refusal tt Demo.idle
  = Failed (UserError 9)
           (mkState [1; 0]%nat false false
                    [CallExecuteTick tt;
                     CallTick tt (Demo.constant
                                    (Some [Demo.push 1; Trial.refusing;
                                           Demo.push 2]));
                     CallApply (Demo.push 1);
                     CallApply Trial.refusing]).
Proof. vm_compute. reflexivity. Qed.

(** ** Runs over a simulated clock *)

Section SimulatedRun.
Import Datetime.

Context {World : Type}.

Local Abbreviation Controller := (@Controller World datetime).
Local Abbreviation State := (@State World datetime).
Local Abbreviation Call := (@Call World datetime).
Local Abbreviation Strategy := (Strategy World datetime).

Variable clk : SimulatedClock.t.
Variable strategies : list Strategy.

Let self : Controller := mkController (SimulatedClock.clock clk) strategies.

Implicit Types (st : State).

Lemma add_value (d td r : Z) : add d td = Return r -> r = d + td.
Proof.
  unfold add. cbv zeta. destruct (_ && _); intros H; [|discriminate].
  now inversion H.
Qed.

(** What a generator suspended at [current] can answer. *)
Lemma next_suspended_cases (current : Z) :
  match SimulatedClock.next clk (SimulatedClock.Suspended current) with
  | Return (tk, g) =>
      tk = current + SimulatedClock.interval clk
      /\ g = SimulatedClock.Suspended tk
      /\ tk < SimulatedClock.stop clk
  | Raise _ => True
  end.
Proof.
  simpl. destruct (add current _) as [r|e] eqn:E; [|exact I].
  apply add_value in E. subst r. unfold SimulatedClock.loop_head.
  destruct (Z.ltb_spec (current + SimulatedClock.interval clk)
                       (SimulatedClock.stop clk)); [|exact I].
  repeat split. assumption.
Qed.

Lemma pull_simulated (g : SimulatedClock.generator) st :
  call (__next__ (_clock self) g) st
  = match SimulatedClock.next clk g with
    | Return p =>
        Done p (mkState (world st) (_stop_requested st || false)
                        (_is_running st) (calls st))
    | Raise e =>
        Failed e (mkState (world st) (_stop_requested st || false)
                          (_is_running st) (calls st))
    end.
Proof. reflexivity. Qed.

(** The ticks the loop executes follow one another in steps of the
    interval, whatever the strategies and the operations do. *)
Lemma tick_loop_ticks_in_sequence (fuel : nat) :
  forall (current : Z) st,
  exists k : nat,
    executed (calls (final (tick_loop self fuel
                                      (SimulatedClock.Suspended current) st)))
    = executed (calls st)
      ++ progression (current + SimulatedClock.interval clk)
                     (SimulatedClock.interval clk) k
    /\ Forall (fun tk => tk < SimulatedClock.stop clk)
              (progression (current + SimulatedClock.interval clk)
                           (SimulatedClock.interval clk) k).
Proof.
  induction fuel as [|fuel IH]; intros current st.
  - exists O. simpl. rewrite app_nil_r. split; [reflexivity|constructor].
  - rewrite tick_loop_eq, pull_simulated.
    pose proof (next_suspended_cases current) as Hnext.
    destruct (SimulatedClock.next clk _) as [[tk g]|e].
    + destruct Hnext as (-> & -> & Hlt).
      set (st1 := mkState _ _ _ (calls st)).
      destruct (_stop_requested st1) eqn:Hflag.
      { exists O. simpl. rewrite app_nil_r. split; [reflexivity|constructor]. }
      pose proof (execute_tick_executed
                    self (current + SimulatedClock.interval clk) st1) as Hexec.
      assert (Hone : forall r : @Res World datetime unit,
                 executed (calls (final r))
                 = executed (calls st1)
                   ++ [current + SimulatedClock.interval clk] ->
                 executed (calls (final r))
                 = executed (calls st)
                   ++ progression (current + SimulatedClock.interval clk)
                                  (SimulatedClock.interval clk) 1
                 /\ Forall (fun tk => tk < SimulatedClock.stop clk)
                           (progression (current + SimulatedClock.interval clk)
                                        (SimulatedClock.interval clk) 1)).
      { intros r Hr. rewrite Hr. split; [reflexivity|].
        simpl. constructor; [exact Hlt|constructor]. }
      destruct (execute_tick self _ st1) as [[] st2|e st2|st2];
        try (exists 1%nat; now apply Hone).
      destruct (_stop_requested st2); [exists 1%nat; now apply Hone|].
      destruct (IH (current + SimulatedClock.interval clk) st2)
        as (k & Hk & Hbelow).
      exists (S k). simpl in Hexec. rewrite Hk, Hexec. split.
      * simpl progression. now rewrite <- app_assoc.
      * simpl progression. constructor; assumption.
    + exists O. split; [|constructor].
      destruct e; simpl; now rewrite app_nil_r.
Qed.

(** X3. In a run over a simulated clock, whatever the strategies and the
    operations do and whenever a stop is requested, [initialize] gets the
    tick [start] (if the clock has one) and the ticks given to
    [execute_tick] are [start + interval], [start + 2 interval], ... up to
    some point: one at a time, in the order of the clock, none left out,
    none twice, all below [stop]. *)
Theorem simulated_run_ticks_in_sequence (fuel : nat) st :
  exists k : nat,
    executed (calls (final (_run self fuel st)))
    = executed (calls st)
      ++ progression (SimulatedClock.start clk + SimulatedClock.interval clk)
                     (SimulatedClock.interval clk) k
    /\ Forall (fun tk => tk < SimulatedClock.stop clk)
              (progression (SimulatedClock.start clk + SimulatedClock.interval clk)
                           (SimulatedClock.interval clk) k)
    /\ initialized (calls (final (_run self fuel st)))
       = initialized (calls st)
         ++ (if SimulatedClock.start clk <? SimulatedClock.stop clk
             then [SimulatedClock.start clk] else []).
Proof.
  rewrite run_eq, pull_simulated.
  change (__iter__ (_clock self)) with (SimulatedClock.__iter__ clk).
  destruct (Z.ltb_spec (SimulatedClock.start clk) (SimulatedClock.stop clk))
    as [Hlt|Hge].
  - rewrite (next_created clk Hlt). simpl fst. simpl snd.
    set (st1 := mkState _ _ _ (calls (final (set_is_running true st)))).
    pose proof (initialize_log self (SimulatedClock.start clk) st1) as Hlog.
    change (calls st1) with (calls st) in Hlog.
    destruct (initialize self _ st1) as [[] st2|e st2|st2];
      [| |contradiction].
    + rewrite run_tail_calls.
      destruct (tick_loop_ticks_in_sequence fuel (SimulatedClock.start clk) st2)
        as (k & Hk & Hbelow).
      destruct (tick_loop_phase self fuel
                                (SimulatedClock.Suspended (SimulatedClock.start clk))
                                st2) as (cs & Hcs & Hphase).
      exists k. repeat split; [|exact Hbelow|].
      * rewrite Hk, Hlog. now rewrite executed_initialize.
      * rewrite Hcs, initialized_app, (initialized_tick_phase cs Hphase), Hlog.
        rewrite app_nil_r. apply initialized_initialize.
    + destruct Hlog as (j & s & w & _ & _ & Hc).
      exists O. simpl final. rewrite Hc. repeat split.
      * rewrite executed_initialize. simpl. now rewrite app_nil_r.
      * constructor.
      * apply initialized_initialize.
  - unfold SimulatedClock.next, SimulatedClock.__iter__.
    rewrite (loop_head_reached clk _ Hge).
    exists O. simpl. rewrite !app_nil_r. repeat split. constructor.
Qed.

End SimulatedRun.

(** ** Runs that nothing disturbs *)

Section CalmCalls.

Context {World Tick : Type}.

Local Abbreviation Controller := (@Controller World Tick).
Local Abbreviation State := (@State World Tick).
Local Abbreviation Call := (@Call World Tick).
Local Abbreviation Strategy := (Strategy World Tick).

Implicit Types (st : State) (self : Controller) (tk : Tick).

Lemma logged_calm {A} (c : Call) (f : World -> Reply World A) st :
  calm f ->
  _stop_requested st = false ->
  exists a : A,
    logged c f st = Done a (after_logged c f st)
    /\ _stop_requested (after_logged c f st) = false.
Proof.
  intros Hcalm Hflag. destruct (Hcalm (world st)) as [[a Ha] Hstop].
  exists a. rewrite logged_eq, Ha. split; [reflexivity|].
  simpl. now rewrite Hflag, Hstop.
Qed.

Lemma for_each_calm {A} (mk : A -> Call) (f : A -> World -> Reply World unit)
      (xs : list A) :
  Forall (fun x => calm (f x)) xs ->
  forall st,
    _stop_requested st = false ->
    exists st',
      for_each xs (fun x => logged (mk x) (f x)) st = Done tt st'
      /\ _stop_requested st' = false.
Proof.
  induction 1 as [|x xs Hx _ IH]; intros st Hflag.
  - exists st. split; [reflexivity|exact Hflag].
  - destruct (logged_calm (mk x) (f x) st Hx Hflag) as ([] & Hrun & Hflag').
    rewrite for_each_cons, Hrun. exact (IH _ Hflag').
Qed.

Lemma comprehension_calm {A B} (mk : A -> Call)
      (f : A -> World -> Reply World B) (xs : list A) :
  Forall (fun x => calm (f x)) xs ->
  forall st,
    _stop_requested st = false ->
    exists (ys : list B) st',
      comprehension (fun x => logged (mk x) (f x)) xs st = Done ys st'
      /\ _stop_requested st' = false.
Proof.
  induction 1 as [|x xs Hx _ IH]; intros st Hflag.
  - exists [], st. split; [reflexivity|exact Hflag].
  - destruct (logged_calm (mk x) (f x) st Hx Hflag) as (y & Hrun & Hflag').
    destruct (IH _ Hflag') as (ys & st' & Hrest & Hflag'').
    exists (y :: ys), st'. rewrite comprehension_cons, Hrun, Hrest.
    split; [reflexivity|exact Hflag''].
Qed.

Lemma calm_results tk (xs : list Strategy) (rs : list (TickResult World)) :
  Forall calm_strategy xs ->
  Forall2 (fun x r => exists w, outcome (tick x tk w) = Return r) xs rs ->
  Forall calm (chain rs).
Proof.
  intros Hcalm Hrs. unfold chain.
  induction Hrs as [|x r xs rs [w Hw] _ IH]; [constructor|].
  inversion Hcalm as [|? ? Hx Hxs]; subst.
  simpl. apply Forall_app. split; [|exact (IH Hxs)].
  destruct (Hx tk) as (_ & _ & Hops). exact (Hops w r Hw).
Qed.

Lemma execute_tick_calm self tk st :
  Forall calm_strategy (_strategies self) ->
  _stop_requested st = false ->
  exists st',
    execute_tick self tk st = Done tt st' /\ _stop_requested st' = false.
Proof.
  intros Hcalm Hflag. rewrite execute_tick_eq. unfold ask.
  assert (Hticks : Forall (fun x : Strategy => calm (tick x tk))
                          (_strategies self)).
  { eapply Forall_impl; [|exact Hcalm]. intros s Hs. apply (Hs tk). }
  destruct (comprehension_calm
              (CallTick tk) (fun strategy => tick strategy tk)
              (_strategies self) Hticks
              (final (record (CallExecuteTick tk) st)) Hflag)
    as (rs & st1 & Hask & Hflag1).
  pose proof (comprehension_logged
                (CallTick tk) (fun strategy => tick strategy tk)
                (_strategies self)
                (final (record (CallExecuteTick tk) st))) as Hlog.
  cbv beta in Hask, Hlog. rewrite Hask in Hlog |- *.
  destruct Hlog as [_ Hrs].
  rewrite chain_filter_truthy.
  apply (for_each_calm (@CallApply World Tick) (fun operation => operation));
    [|exact Hflag1].
  exact (calm_results tk _ rs Hcalm Hrs).
Qed.

Lemma initialize_calm self tk st :
  Forall calm_strategy (_strategies self) ->
  _stop_requested st = false ->
  exists st',
    initialize self tk st = Done tt st' /\ _stop_requested st' = false.
Proof.
  intros Hcalm Hflag. unfold initialize, bind. simpl.
  apply (for_each_calm (CallStart tk) (fun strategy => start strategy tk));
    [|exact Hflag].
  eapply Forall_impl; [|exact Hcalm]. intros s Hs. apply (Hs tk).
Qed.

End CalmCalls.

Section CalmRun.
Import Datetime.

Context {World : Type}.

Local Abbreviation Controller := (@Controller World datetime).
Local Abbreviation State := (@State World datetime).
Local Abbreviation Strategy := (Strategy World datetime).

Variable clk : SimulatedClock.t.
Variable strategies : list Strategy.

Let self : Controller := mkController (SimulatedClock.clock clk) strategies.

Implicit Types (st : State).

Lemma tick_loop_follows_clock (fuel : nat) :
  Forall calm_strategy strategies ->
  forall (g : SimulatedClock.generator) st
         (ticks : list datetime) (ending : SimulatedClock.Ending),
    SimulatedClock.pulls clk fuel g = (ticks, ending) ->
    _stop_requested st = false ->
    exists st',
      tick_loop self fuel g st = loop_ending ending st'
      /\ executed (calls st') = executed (calls st) ++ ticks
      /\ _stop_requested st' = false.
Proof.
  intros Hcalm. induction fuel as [|fuel IH]; intros g st ticks ending Hp Hflag.
  - simpl in Hp. inversion Hp; subst. exists st. simpl.
    rewrite app_nil_r. auto.
  - simpl in Hp. rewrite tick_loop_eq.
    change (call (__next__ (_clock self) g) st)
      with (match SimulatedClock.next clk g with
            | Return p =>
                @Done World datetime _ p
                      (mkState (world st) (_stop_requested st || false)
                               (_is_running st) (calls st))
            | Raise e =>
                Failed e (mkState (world st) (_stop_requested st || false)
                                  (_is_running st) (calls st))
            end).
    destruct (SimulatedClock.next clk g) as [[tk g']|e].
    + destruct (SimulatedClock.pulls clk fuel g') as [ts e'] eqn:Hrest.
      inversion Hp; subst.
      set (st1 := mkState _ _ _ (calls st)).
      assert (Hflag1 : _stop_requested st1 = false) by (simpl; now rewrite Hflag).
      rewrite Hflag1.
      destruct (execute_tick_calm self tk st1 Hcalm Hflag1)
        as (st2 & Hexec & Hflag2).
      pose proof (execute_tick_executed self tk st1) as Hlog.
      rewrite Hexec in Hlog |- *. simpl in Hlog. rewrite Hflag2.
      destruct (IH g' st2 ts ending Hrest Hflag2) as (st' & Hloop & Hticks & Hf).
      exists st'. repeat split; [exact Hloop| |exact Hf].
      rewrite Hticks, Hlog. simpl. now rewrite <- app_assoc.
    + set (st1 := mkState _ _ _ (calls st)).
      assert (Hflag1 : _stop_requested st1 = false) by (simpl; now rewrite Hflag).
      exists st1.
      destruct e; inversion Hp; subst; simpl; rewrite app_nil_r; auto.
Qed.

(** A run that nothing disturbs goes as far as the traversal of its clock
    goes, and ends as it ends. *)
Lemma calm_run_mirrors_pulls
        (fuel : nat) st (t0 : datetime) (rest : list datetime)
        (ending : SimulatedClock.Ending) :
  Forall calm_strategy strategies ->
  _stop_requested st = false ->
  SimulatedClock.produced clk (S fuel) = (t0 :: rest, ending) ->
  exists st',
    _run self fuel st = loop_ending ending st'
    /\ initialized (calls st') = initialized (calls st) ++ [t0]
    /\ executed (calls st') = executed (calls st) ++ rest
    /\ _stop_requested st' = false.
Proof.
  intros Hcalm Hflag Hp.
  unfold SimulatedClock.produced in Hp. simpl in Hp.
  rewrite run_eq, (pull_simulated clk strategies).
  change (__iter__ (_clock self)) with (SimulatedClock.__iter__ clk).
  unfold SimulatedClock.next, SimulatedClock.__iter__.
  destruct (SimulatedClock.loop_head clk (SimulatedClock.start clk))
    as [[tk g']|e]; [|destruct e; discriminate Hp].
  destruct (SimulatedClock.pulls clk fuel g') as [ts e'] eqn:Hrest.
  inversion Hp; subst. simpl fst. simpl snd.
  set (st1 := mkState _ _ _ (calls (final (set_is_running true st)))).
  assert (Hflag1 : _stop_requested st1 = false) by (simpl; now rewrite Hflag).
  destruct (initialize_calm self t0 st1 Hcalm Hflag1) as (st2 & Hinit & Hflag2).
  pose proof (initialize_log self t0 st1) as Hlog.
  rewrite Hinit in Hlog |- *. change (calls st1) with (calls st) in Hlog.
  destruct (tick_loop_follows_clock fuel Hcalm g' st2 rest ending Hrest Hflag2)
    as (st3 & Hloop & Hticks & Hflag3).
  destruct (tick_loop_phase self fuel g' st2) as (cs & Hcs & Hphase).
  rewrite Hloop in Hcs |- *.
  assert (Hcalls : calls (final (loop_ending ending st3)) = calls st3)
    by (destruct ending; reflexivity).
  rewrite Hcalls in Hcs.
  assert (Hinitd : initialized (calls st3) = initialized (calls st) ++ [t0]).
  { rewrite Hcs, initialized_app, (initialized_tick_phase cs Hphase), Hlog.
    rewrite app_nil_r. apply initialized_initialize. }
  assert (Hexecd : executed (calls st3) = executed (calls st) ++ rest).
  { rewrite Hticks, Hlog. now rewrite executed_initialize. }
  destruct ending; simpl.
  - eexists. split; [reflexivity|]. simpl. auto.
  - exists st3. auto.
  - exists st3. auto.
Qed.

(** X4. A run over a simulated clock that nothing disturbs (the hooks and
    the operations return, nobody calls [stop()]) follows the clock to its
    end: [initialize] gets the first tick, every other tick of the
    traversal is executed, in order, and the run ends as the traversal does:
    it returns when the clock is exhausted, and it is ended by the clock's
    exception when the clock raises. *)
Theorem calm_run_follows_clock
        (fuel : nat) st (t0 : datetime) (rest : list datetime)
        (ending : SimulatedClock.Ending) :
  Forall calm_strategy strategies ->
  _stop_requested st = false ->
  SimulatedClock.produced clk (S fuel) = (t0 :: rest, ending) ->
  ending <> SimulatedClock.Unfinished ->
  exists st',
    final (_run self fuel st) = st'
    /\ match ending with
       | SimulatedClock.Errored e => _run self fuel st = Failed e st'
       | _ => _run self fuel st = Done tt st'
       end
    /\ initialized (calls st') = initialized (calls st) ++ [t0]
    /\ executed (calls st') = executed (calls st) ++ rest
    /\ _stop_requested st' = false.
Proof.
  intros Hcalm Hflag Hp Hcomplete.
  destruct (calm_run_mirrors_pulls fuel st t0 rest ending Hcalm Hflag Hp)
    as (st' & Hrun & Hinit & Hexec & Hstop).
  exists st'. rewrite Hrun.
  destruct ending as [|e|]; [| |contradiction]; simpl; auto.
Qed.

(** X11. With an interval of zero and [start < stop], a run that nothing
    disturbs never comes to an end: after the initialization it executes
    the tick [start] again and again, once for every pull the fuel
    allows. *)
Theorem zero_interval_run_never_ends (fuel : nat) st :
  SimulatedClock.interval clk = 0 ->
  is_datetime (SimulatedClock.start clk) ->
  SimulatedClock.start clk < SimulatedClock.stop clk ->
  Forall calm_strategy strategies ->
  _stop_requested st = false ->
  exists st',
    _run self fuel st = Timeout st'
    /\ initialized (calls st')
       = initialized (calls st) ++ [SimulatedClock.start clk]
    /\ executed (calls st')
       = executed (calls st) ++ repeat (SimulatedClock.start clk) fuel.
Proof.
  intros Hzero Ha Hlt Hcalm Hflag.
  assert (Hp : SimulatedClock.produced clk (S fuel)
               = (SimulatedClock.start clk
                    :: repeat (SimulatedClock.start clk) fuel,
                  SimulatedClock.Unfinished)).
  { unfold SimulatedClock.produced, SimulatedClock.__iter__.
    simpl SimulatedClock.pulls. rewrite loop_head_below by assumption.
    destruct clk as [a b i]. simpl in *. subst i.
    now rewrite zero_interval_pulls. }
  destruct (calm_run_mirrors_pulls fuel st _ _ _ Hcalm Hflag Hp)
    as (st' & Hrun & Hinit & Hexec & _).
  exists st'. auto.
Qed.

End CalmRun.

Lemma Scenario_recorder_calm :
  Forall calm_strategy [Scenario.recorder].
Proof.
  constructor; [|constructor]. intros tk. repeat split.
  - now exists tt.
  - now exists (Some [Scenario.record_tick tk]).
  - intros w r Hr. inversion Hr; subst. simpl.
    constructor; [|constructor]. intros w'. split; [now exists tt|reflexivity].
Defined.

Lemma calm_run_follows_clock_witness :
  exists st' : @State Scenario.Broker Datetime.datetime,
    final (_run (Scenario.controller
                   (SimulatedClock.make 1000000 4000000 1000000))
                3 (fresh []))
    = st'
    /\ _run (Scenario.controller (SimulatedClock.make 1000000 4000000 1000000))
            3 (fresh [])
       = Done tt st'
    /\ initialized (calls st') = [1000000]
    /\ executed (calls st') = [2000000; 3000000]
    /\ _stop_requested st' = false.
Proof.
  apply (calm_run_follows_clock
           (SimulatedClock.make 1000000 4000000 1000000) [Scenario.recorder]
           3 (fresh []) 1000000 [2000000; 3000000] SimulatedClock.Ended).
  - exact Scenario_recorder_calm.
  - reflexivity.
  - vm_compute. reflexivity.
  - discriminate.
Defined.

Lemma zero_interval_run_never_ends_witness :
  exists st' : @State Scenario.Broker Datetime.datetime,
    _run (Scenario.controller (SimulatedClock.make 1000000 4000000 0))
         3 (fresh [])
    = Timeout st'
    /\ initialized (calls st') = [1000000]
    /\ executed (calls st') = [1000000; 1000000; 1000000].
Proof.
  apply (zero_interval_run_never_ends
           (SimulatedClock.make 1000000 4000000 0) [Scenario.recorder]
           3 (fresh [])).
  - reflexivity.
  - unfold Datetime.is_datetime. simpl. rewrite MAX_value. lia.
  - simpl. lia.
  - exact Scenario_recorder_calm.
  - reflexivity.
Defined.

(** ** Clocks that never end *)

Section EndlessClock.

Context {World Tick : Type}.

Local Abbreviation Controller := (@Controller World Tick).
Local Abbreviation State := (@State World Tick).

Implicit Types (st : State) (self : Controller) (tk : Tick).

Lemma tick_loop_left_on_stop self fuel :
  endless (_clock self) ->
  forall (g : cursor (_clock self)) st st',
    tick_loop self fuel g st = Done tt st' -> _stop_requested st' = true.
Proof.
  intros Hendless. induction fuel as [|fuel IH]; intros g st st' H.
  - discriminate H.
  - rewrite tick_loop_eq, call_eq in H. cbv zeta in H.
    pose proof (Hendless g (world st)) as Hnext.
    destruct (outcome (__next__ (_clock self) g (world st)))
      as [[tk g']|e].
    + match type of H with
      | context [if _stop_requested ?s then _ else _] =>
          destruct (_stop_requested s) eqn:Hflag
      end.
      { inversion H; subst. exact Hflag. }
      destruct (execute_tick self tk _) as [[] st2|e st2|st2];
        try discriminate H.
      destruct (_stop_requested st2) eqn:Hflag2.
      * inversion H; subst. exact Hflag2.
      * exact (IH g' st2 st' H).
    + destruct e; try discriminate H. now contradiction Hnext.
Qed.

(** X5. Over a clock that is never exhausted, as [DummyClock] is, [_run]
    returns only by way of a stop request: if it returns,
    [_stop_requested] is true. *)
Theorem endless_run_returns_only_when_stopped self fuel st st' :
  endless (_clock self) ->
  _run self fuel st = Done tt st' ->
  _stop_requested st' = true.
Proof.
  intros Hendless. rewrite run_eq.
  destruct (call _ _) as [first st1|e st1|st1]; try discriminate.
  destruct (initialize _ _ _) as [[] st2|e st2|st2]; try discriminate.
  destruct (tick_loop self fuel (snd first) st2) as [[] st3|e st3|st3] eqn:Hloop;
    try discriminate.
  intros H. inversion H; subst. simpl.
  exact (tick_loop_left_on_stop self fuel Hendless _ _ _ Hloop).
Qed.

(** X9. With the flag up at the head of the loop the clock is still asked
    for its next tick before the loop is left: what that pull does to the
    world (for an [IntervalClock], one more sleep) has happened, the tick
    itself is dropped. *)
Theorem stop_noticed_after_one_more_pull
        self fuel (g : cursor (_clock self)) st :
  _stop_requested st = true ->
  world (final (tick_loop self (S fuel) g st))
  = world_after (__next__ (_clock self) g (world st))
  /\ calls (final (tick_loop self (S fuel) g st)) = calls st.
Proof.
  intros Hflag. rewrite tick_loop_eq, call_eq. cbv zeta.
  destruct (outcome (__next__ (_clock self) g (world st))) as [[tk g']|e].
  - simpl _stop_requested. rewrite Hflag. simpl. split; reflexivity.
  - destruct e; simpl; split; reflexivity.
Qed.

End EndlessClock.

Lemma dummy_clock_endless {World : Type} : endless (@DummyClock.clock World).
Proof. intros g w. discriminate. Qed.

Lemma endless_run_returns_only_when_stopped_witness :
  _stop_requested (final (_run Demo.stopped_midway 10 Demo.idle)) = true.
Proof.
  apply (endless_run_returns_only_when_stopped
           Demo.stopped_midway 10 Demo.idle).
  - exact dummy_clock_endless.
  - vm_compute. reflexivity.
Defined.

Lemma stop_noticed_after_one_more_pull_witness :
  world (final (tick_loop
                  (mkController
                     (IntervalClock.clock Trial.utcnow Trial.sleep
                                          (IntervalClock.make 2))
                     [])
                  1 IntervalClock.Suspended
                  (stop (fresh (5000000 : Trial.Time)))))
  = 7000007
  /\ calls (final (tick_loop
                     (mkController
                        (IntervalClock.clock Trial.utcnow Trial.sleep
                                             (IntervalClock.make 2))
                        [])
                     1 IntervalClock.Suspended
                     (stop (fresh (5000000 : Trial.Time)))))
     = [].
Proof.
  apply (stop_noticed_after_one_more_pull
           (mkController
              (IntervalClock.clock Trial.utcnow Trial.sleep
                                   (IntervalClock.make 2))
              [])
           0 IntervalClock.Suspended (stop (fresh (5000000 : Trial.Time)))).
  reflexivity.
Defined.

(** ** A simulated clock that runs backwards *)

Section BackwardsClock.
Import Datetime.

Lemma add_too_early (d td : Z) : d + td < 0 -> add d td = Raise OverflowError.
Proof.
  intros H. unfold add. cbv zeta.
  destruct (Z.leb_spec 0 (d + td)); [lia|reflexivity].
Qed.

Lemma pulls_backwards (self : SimulatedClock.t) (m : nat) :
  forall (current : Z) (fuel : nat),
    SimulatedClock.interval self < 0 ->
    current < SimulatedClock.stop self ->
    current <= MAX ->
    Z.of_nat m * - SimulatedClock.interval self <= current ->
    current < (Z.of_nat m + 1) * - SimulatedClock.interval self ->
    (m < fuel)%nat ->
    SimulatedClock.pulls self fuel (SimulatedClock.Suspended current)
    = (progression (current + SimulatedClock.interval self)
                   (SimulatedClock.interval self) m,
       SimulatedClock.Errored OverflowError).
Proof.
  induction m as [|m IH]; intros current fuel Hi Hlt Hmax Hlo Hhi Hfuel;
    (destruct fuel as [|fuel]; [lia|]).
  - simpl SimulatedClock.pulls. rewrite add_too_early by lia. reflexivity.
  - assert (Hs : Z.of_nat (S m) = Z.of_nat m + 1) by lia.
    rewrite Hs in *. clear Hs.
    assert (Hm : 0 <= Z.of_nat m * - SimulatedClock.interval self) by nia.
    simpl SimulatedClock.pulls.
    rewrite add_in_range by lia.
    rewrite loop_head_below; [|lia].
    rewrite IH; try lia.
    reflexivity.
Qed.

(** X6. A simulated clock with a negative interval and [start < stop] never
    reaches [stop]: its traversal goes down from [start] in steps of the
    interval for as long as the value is a [datetime], and is then ended by
    the [OverflowError] of the addition, after [start / |interval| + 1]
    ticks. *)
Theorem backwards_clock_ends_in_overflow (self : SimulatedClock.t) (fuel : nat) :
  SimulatedClock.interval self < 0 ->
  is_datetime (SimulatedClock.start self) ->
  SimulatedClock.start self < SimulatedClock.stop self ->
  (S (Z.to_nat (SimulatedClock.start self / - SimulatedClock.interval self))
   < fuel)%nat ->
  SimulatedClock.produced self fuel
  = (progression (SimulatedClock.start self) (SimulatedClock.interval self)
                 (S (Z.to_nat (SimulatedClock.start self
                               / - SimulatedClock.interval self))),
     SimulatedClock.Errored OverflowError).
Proof.
  intros Hi [Ha Hmax] Hlt Hfuel.
  set (n := Z.to_nat (SimulatedClock.start self / - SimulatedClock.interval self))
    in *.
  assert (Hq : 0 <= SimulatedClock.start self / - SimulatedClock.interval self)
    by (apply Z.div_pos; lia).
  assert (Hn : Z.of_nat n
               = SimulatedClock.start self / - SimulatedClock.interval self)
    by (unfold n; now rewrite Z2Nat.id).
  pose proof (Z.mul_div_le (SimulatedClock.start self)
                           (- SimulatedClock.interval self) ltac:(lia)) as Hlo.
  pose proof (Z.mul_succ_div_gt (SimulatedClock.start self)
                                (- SimulatedClock.interval self) ltac:(lia))
    as Hhi.
  rewrite <- Hn in Hlo, Hhi.
  destruct fuel as [|fuel]; [lia|].
  unfold SimulatedClock.produced, SimulatedClock.__iter__.
  simpl SimulatedClock.pulls.
  rewrite loop_head_below by assumption.
  rewrite (pulls_backwards self n); try lia.
  reflexivity.
Qed.

Lemma backwards_clock_ends_in_overflow_witness :
  SimulatedClock.produced (SimulatedClock.make 2500000 9000000 (-1000000)) 5
  = (progression 2500000 (-1000000)
                 (S (Z.to_nat (2500000 / - -1000000))),
     SimulatedClock.Errored OverflowError).
Proof.
  apply (backwards_clock_ends_in_overflow
           (SimulatedClock.make 2500000 9000000 (-1000000)) 5).
  - simpl. lia.
  - unfold is_datetime. simpl. rewrite MAX_value. lia.
  - simpl. lia.
  - vm_compute. lia.
Defined.

(** The traversal of the previous lemma: three ticks, going down. *)
Example backwards_clock_three_ticks :
  SimulatedClock.produced (SimulatedClock.make 2500000 9000000 (-1000000)) 5
  = ([2500000; 1500000; 500000], SimulatedClock.Errored OverflowError).
Proof. vm_compute. reflexivity. Qed.

End BackwardsClock.

(** ** IntervalClock *)

Section IntervalClockFacts.
Import Datetime.

Context {World : Type}.
Variable utcnow : World -> datetime.
Variable sleep : Z -> World -> Reply World unit.
Variable self : IntervalClock.t.

Lemma gaps_at_least_cons (d a b : Z) (l : list Z) :
  a + d <= b -> gaps_at_least d (b :: l) -> gaps_at_least d (a :: b :: l).
Proof.
  intros Hab Hl [|i] Hi; simpl in *; [exact Hab|].
  apply Hl. simpl. lia.
Qed.

Lemma gaps_at_least_one (d a : Z) : gaps_at_least d [a].
Proof. intros i Hi. simpl in Hi. lia. Qed.

(** What sleeping is expected to do: it returns, and the time read
    afterwards is at least [interval] seconds later. *)
Hypothesis sleep_takes_its_time :
  forall w,
    outcome (sleep (IntervalClock.interval self) w) = Return tt
    /\ utcnow w + IntervalClock.interval self * US_PER_SECOND
       <= utcnow (world_after (sleep (IntervalClock.interval self) w)).

Lemma pulls_suspended_gaps (fuel : nat) :
  forall w,
  exists (ticks : list datetime) (w' : World),
    IntervalClock.pulls utcnow sleep self fuel IntervalClock.Suspended w
    = (Some ticks, w')
    /\ length ticks = fuel
    /\ gaps_at_least (IntervalClock.interval self * US_PER_SECOND)
                     (utcnow w :: ticks).
Proof.
  induction fuel as [|fuel IH]; intros w.
  - exists [], w. repeat split. apply gaps_at_least_one.
  - destruct (sleep_takes_its_time w) as [Hret Hlater].
    destruct (IH (world_after (sleep (IntervalClock.interval self) w)))
      as (ticks & w' & Hp & Hlen & Hgaps).
    exists (utcnow (world_after (sleep (IntervalClock.interval self) w)) :: ticks),
           w'.
    simpl IntervalClock.pulls. rewrite Hret. simpl. rewrite Hp.
    repeat split.
    + simpl. now rewrite Hlen.
    + now apply gaps_at_least_cons.
Qed.

(** X7. Where sleeping returns and takes at least the time asked for, an
    [IntervalClock] is never exhausted: any number of pulls yields that
    many ticks. The first tick is the time at the first pull, read without
    sleeping; every later tick is at least [interval] seconds after the one
    before it. *)
Theorem interval_clock_ticks (fuel : nat) (w : World) :
  exists (ticks : list datetime) (w' : World),
    IntervalClock.pulls utcnow sleep self fuel (IntervalClock.__iter__ self) w
    = (Some ticks, w')
    /\ length ticks = fuel
    /\ hd_error ticks = match fuel with O => None | S _ => Some (utcnow w) end
    /\ gaps_at_least (IntervalClock.interval self * US_PER_SECOND) ticks.
Proof.
  destruct fuel as [|fuel].
  - exists [], w. repeat split. intros i Hi. simpl in Hi. lia.
  - destruct (pulls_suspended_gaps fuel w) as (ticks & w' & Hp & Hlen & Hgaps).
    exists (utcnow w :: ticks), w'.
    unfold IntervalClock.__iter__. simpl IntervalClock.pulls. rewrite Hp.
    repeat split; [simpl; now rewrite Hlen|exact Hgaps].
Qed.

End IntervalClockFacts.

Lemma interval_clock_ticks_witness :
  exists (ticks : list Datetime.datetime) (w' : Trial.Time),
    IntervalClock.pulls Trial.utcnow Trial.sleep (IntervalClock.make 2) 3
                        (IntervalClock.__iter__ (IntervalClock.make 2)) 5000000
    = (Some ticks, w')
    /\ length ticks = 3%nat
    /\ hd_error ticks = Some (Trial.utcnow 5000000)
    /\ gaps_at_least (IntervalClock.interval (IntervalClock.make 2)
                      * Datetime.US_PER_SECOND) ticks.
Proof.
  apply (interval_clock_ticks Trial.utcnow Trial.sleep (IntervalClock.make 2)).
  intros w. split; [reflexivity|].
  unfold Trial.utcnow, Trial.sleep. simpl. lia.
Defined.

(** The traversal of the previous lemma: each sleep of two seconds took
    seven microseconds more. *)
Example interval_clock_three_ticks :
  IntervalClock.pulls Trial.utcnow Trial.sleep (IntervalClock.make 2) 3
                      (IntervalClock.__iter__ (IntervalClock.make 2)) 5000000
  = (Some [5000000; 7000007; 9000014], 9000014).
Proof. vm_compute. reflexivity. Qed.

(** ** The life cycle *)

Section LifeCycle.

Context {World Tick : Type}.

Local Abbreviation Controller := (@Controller World Tick).
Local Abbreviation State := (@State World Tick).

(** X8. [stop()] on a controller that was never run raises
    [AttributeError], but only after it has set [_stop_requested]; [run()]
    is still accepted afterwards, and the loop it starts finds the flag up:
    it executes no tick and ends after the initialization at the latest. *)
Theorem stop_before_run_spoils_the_run (self : Controller) (w : World)
        (fuel : nat) :
  exists stopped started : @ThreadedControllerMixin.t World Tick,
    ThreadedControllerMixin.stop (ThreadedControllerMixin.__init__ w)
    = (Some ThreadedControllerMixin.AttributeError, stopped)
    /\ _stop_requested (ThreadedControllerMixin.shared stopped) = true
    /\ ThreadedControllerMixin.run stopped = inr started
    /\ ThreadedControllerMixin.shared started
       = ThreadedControllerMixin.shared stopped
    /\ executed (calls (final (_run self (S fuel)
                                    (ThreadedControllerMixin.shared started))))
       = []
    /\ (forall st',
           _run self (S fuel) (ThreadedControllerMixin.shared started)
           <> Timeout st').
Proof.
  eexists. eexists. repeat split.
  - simpl ThreadedControllerMixin.shared. rewrite run_eq.
    destruct (call _ _) as [first st1|e st1|st1] eqn:Hfirst.
    + pose proof (call_calls
                    (__next__ (_clock self) (__iter__ (_clock self)))
                    (final (set_is_running true (stop (@fresh World Tick w))))) as Hc.
      pose proof (call_stop
                    (__next__ (_clock self) (__iter__ (_clock self)))
                    (final (set_is_running true (stop (@fresh World Tick w)))) eq_refl)
        as Hflag.
      rewrite Hfirst in Hc, Hflag. simpl in Hc, Hflag.
      pose proof (initialize_log self (fst first) st1) as Hlog.
      pose proof (initialize_stop self (fst first) st1 Hflag) as Hflag2.
      destruct (initialize _ _ _) as [[] st2|e st2|st2]; [| |contradiction].
      * rewrite run_tail_calls.
        destruct (tick_loop_stopped self fuel (snd first) st2 Hflag2)
          as [Hstay _].
        rewrite Hstay, Hlog, Hc. apply (executed_initialize _ []).
      * destruct Hlog as (k & s & w' & _ & _ & Hlog).
        simpl. rewrite Hlog, Hc. apply (executed_initialize _ []).
    + pose proof (call_calls
                    (__next__ (_clock self) (__iter__ (_clock self)))
                    (final (set_is_running true (stop (@fresh World Tick w))))) as Hc.
      rewrite Hfirst in Hc. simpl in Hc. simpl. now rewrite Hc.
    + exfalso. exact (call_never_times_out _ _ _ Hfirst).
  - intros st'. simpl ThreadedControllerMixin.shared. rewrite run_eq.
    destruct (call _ _) as [first st1|e st1|st1] eqn:Hfirst;
      [|discriminate|].
    + pose proof (call_stop
                    (__next__ (_clock self) (__iter__ (_clock self)))
                    (final (set_is_running true (stop (@fresh World Tick w)))) eq_refl)
        as Hflag.
      rewrite Hfirst in Hflag. simpl in Hflag.
      pose proof (initialize_log self (fst first) st1) as Hlog.
      pose proof (initialize_stop self (fst first) st1 Hflag) as Hflag2.
      destruct (initialize _ _ _) as [[] st2|e st2|st2];
        [|discriminate|contradiction].
      destruct (tick_loop_stopped self fuel (snd first) st2 Hflag2)
        as [_ Hnot].
      destruct (tick_loop self (S fuel) (snd first) st2) as [[] st3|e st3|st3];
        try discriminate.
      exfalso. exact (Hnot st3 eq_refl).
    + exfalso. exact (call_never_times_out _ _ _ Hfirst).
Qed.

End LifeCycle.

(** A controller stopped before it was run, then run: the strategies are
    started, nothing is executed. *)
Example stop_then_run :
  ThreadedControllerMixin.stop Trial.never_run
  = (Some ThreadedControllerMixin.AttributeError,
     ThreadedControllerMixin.make None Demo.stop_pending)
  /\ ThreadedControllerMixin.run
       (ThreadedControllerMixin.make None Demo.stop_pending)
     = inr (ThreadedControllerMixin.make (Some tt) Demo.stop_pending)
  /\ ThreadedControllerMixin.run
       (ThreadedControllerMixin.make (Some tt) Demo.stop_pending)
     = inl ThreadedControllerMixin.AssertionError
  /\ _run Demo.starting 5 Demo.stop_pending
     = Done tt
         (mkState [10; 20]%nat true false
                  [CallInitialize tt;
                   CallStart tt (Demo.marking 10);
                   CallStart tt (Demo.marking 20)]).
Proof. repeat split. Qed.

(** ** Start hooks that raise *)

Section StartHooks.

Context {World Tick : Type}.

Local Abbreviation Controller := (@Controller World Tick).
Local Abbreviation State := (@State World Tick).
Local Abbreviation Strategy := (Strategy World Tick).

Implicit Types (st : State) (self : Controller) (tk : Tick).

(** X10. [initialize] runs the [start] hooks on the world in the order of
    the collection. When one of them raises, [initialize] ends with its
    exception: the hooks before it stay done (nothing is rolled back),
    whatever it did itself stays done, the strategies after it are not
    started, and the run is over before any tick is executed. *)
Theorem start_hooks_fail_fast self fuel st first st1 :
  call (__next__ (_clock self) (__iter__ (_clock self)))
       (final (set_is_running true st)) = Done first st1 ->
  match initialize self (fst first) st1 with
  | Done _ st2 =>
      world st2 = start_all (fst first) (_strategies self) (world st1)
  | Failed e st2 =>
      (exists (k : nat) (strategy : Strategy),
          nth_error (_strategies self) k = Some strategy
          /\ outcome (start strategy (fst first)
                            (start_all (fst first)
                                       (firstn k (_strategies self))
                                       (world st1)))
             = Raise e
          /\ world st2
             = start_all (fst first) (firstn (S k) (_strategies self))
                         (world st1)
          /\ calls st2
             = calls st ++ CallInitialize (fst first)
                        :: map (CallStart (fst first))
                               (firstn (S k) (_strategies self)))
      /\ _run self fuel st = Failed e st2
      /\ executed (calls st2) = executed (calls st)
  | Timeout _ => False
  end.
Proof.
  intros Hfirst.
  pose proof (call_calls (__next__ (_clock self) (__iter__ (_clock self)))
                         (final (set_is_running true st))) as Hc.
  rewrite Hfirst in Hc. simpl in Hc.
  pose proof (run_eq self fuel st) as Hrun. rewrite Hfirst in Hrun.
  pose proof (start_phase (fst first) (_strategies self)
                          (mkState (world st1) (_stop_requested st1)
                                   (_is_running st1)
                                   (calls st1 ++ [CallInitialize (fst first)])))
    as Hphase.
  change (for_each (_strategies self) _ _)
    with (initialize self (fst first) st1) in Hphase.
  destruct (initialize self (fst first) st1) as [[] st2|e st2|st2];
    [exact Hphase| |exact Hphase].
  destruct Hphase as (k & s & Hk & Hraise & Hw & Hcalls).
  simpl calls in Hcalls. rewrite Hc, <- app_assoc in Hcalls.
  repeat split; [|exact Hrun|].
  - exists k, s. repeat split; assumption.
  - rewrite Hcalls. apply executed_initialize.
Qed.

End StartHooks.

Lemma start_hooks_fail_fast_witness :
  (exists (k : nat) (strategy : Strategy Demo.Journal unit),
      nth_error (_strategies Trial.with_unstartable) k = Some strategy
      /\ outcome (start strategy tt
                        (start_all tt
                                   (firstn k (_strategies Trial.with_unstartable))
                                   []))
         = Raise (UserError 3)
      /\ world (final (_run Trial.with_unstartable 5 Demo.idle))
         = start_all tt (firstn (S k) (_strategies Trial.with_unstartable)) []
      /\ calls (final (_run Trial.with_unstartable 5 Demo.idle))
         = calls Demo.idle
           ++ CallInitialize tt
              :: map (CallStart tt)
                     (firstn (S k) (_strategies Trial.with_unstartable)))
  /\ _run Trial.with_unstartable 5 Demo.idle
     = Failed (UserError 3) (final (_run Trial.with_unstartable 5 Demo.idle))
  /\ executed (calls (final (_run Trial.with_unstartable 5 Demo.idle)))
     = executed (calls Demo.idle).
Proof.
  exact (start_hooks_fail_fast
           Trial.with_unstartable 5 Demo.idle (tt, tt)
           (mkState [] false true []) eq_refl).
Defined.

(** The run of the previous lemma: the first strategy is started, the
    second leaves its mark and raises, the third is never started. *)
Example unstartable_strategy_ends_the_run :
  _run Trial.with_unstartable 5 Demo.idle
  = Failed (UserError 3)
           (mkState [10; 0]%nat false true
                    [CallInitialize tt;
                     CallStart tt (Demo.marking 10);
                     CallStart tt Trial.unstartable]).
Proof. vm_compute. reflexivity. Qed.
